(** * serial_command: the TELLIE serial command session

    A shallow embedding of [serial_command.py] (Python 2): the parameter
    encoders [command_*] at the bottom of the module and the
    [SerialCommand] class that drives the serial port.

    Conventions of the embedding
    - Python [str] values are byte strings: [string] here, one [ascii] per
      byte.
    - Integers are [Z].  The pulse delay is a Python float (or int); it is
      represented by the rational number it denotes ([Q]), and a float
      operation returns its exact result rounded to the nearest IEEE 754
      double, ties to even ([round_double]).  [int(x)] is truncation toward
      zero.  [doubles_agree_on_the_examples] checks [round_double] against
      the IEEE operations of the standard library on the values of the
      worked examples.
    - A raised exception is the [Raise] outcome.  Every
      [tellie_exception.TellieException] carries a message; each distinct
      message of the module is one constructor of [TellieException].
    - Calls to the logger only observe and are left out. *)

From Stdlib Require Import ZArith QArith Qround Qabs Qpower.
From Stdlib Require Import String Ascii List Bool Lia.
From Stdlib Require Import SpecFloat.
Import ListNotations.

Open Scope string_scope.
Open Scope list_scope.
Open Scope Z_scope.

(** Python's [+] on [str]; [++] stays the append of lists. *)
Infix "+++" := String.append (right associativity, at level 60).

(** ** Exceptions *)

Inductive TellieException : Type :=
| BufferNotClear (buffer_read : string)
    (* "Buffer not clear: %s" *)
| ConnectionLost
    (* "Lost connection with TELLIE control!" *)
| ProtocolDesync (saw remainder expected : string)
    (* "Unexpected buffer output:\nsaw: %s, remainder %s\nexpected: %s" *)
| IllegalWhileFiring
    (* "Cannot run command, in firing mode" *)
| ExtTrigWhileFiring
    (* "Cannot set ext. trig, already in firing mode" *)
| AlreadyFiring
    (* "Cannot fire, already in firing mode" *)
| IncompleteConfiguration (not_set : list string)
    (* "Undefined options: %s" *)
| ChannelsSet (channel : list Z)
    (* "Cannot set parameter with channels set as %s" *)
| InvalidPulseHeight (par : Z)
| InvalidPulseWidth (par : Z)
| InvalidPulseNumber (par : Z)
| InvalidPulseDelay (par : Q)
| InvalidTriggerDelay (par : Z)
| InvalidFibreDelay (par : Q)
| InvalidDelay (par : Q).

(** Exceptions of the interpreter and of the serial library that the module
    lets through. *)
Inductive exn : Type :=
| Tellie (e : TellieException)
| ValueError        (* chr() arg not in range(256) *)
| TypeError         (* subscript of None *)
| IndexError        (* list index out of range *)
| SerialException.  (* a write or a read that the port fails, outside
                       any try *)

Inductive outcome (A : Type) : Type :=
| Ret (a : A)
| Raise (e : exn).
Arguments Ret {A} a.
Arguments Raise {A} e.

Definition obind {A B} (o : outcome A) (k : A -> outcome B) : outcome B :=
  match o with
  | Ret a => k a
  | Raise e => Raise e
  end.

Notation "'let?' x ':=' e 'in' k" := (obind e (fun x => k))
  (at level 10, x name, e at level 100, k at level 200).

(** ** Module constants *)

Definition _max_pulse_height : Z := 16383.
Definition _max_pulse_width : Z := 16383.
Definition _max_pulse_delay : Q := 256020 # 1000.
Definition _max_trigger_delay : Z := 1275.
Definition _max_fibre_delay : Q := 1275 # 10.
Definition _max_pulse_number : Z := 65025.

Definition _cmd_fire_continuous := "a".
Definition _cmd_read_single_lower := "r".
Definition _cmd_read_single_upper := "m".
Definition _cmd_fire_series := "g".
Definition _buffer_end_sequence := "K".
Definition _cmd_stop := "X".
Definition _cmd_channel_clear := "C".
Definition _cmd_ph_hi := "L".
Definition _cmd_ph_lo := "M".
Definition _cmd_ph_end := "P".
Definition _cmd_pw_hi := "Q".
Definition _cmd_pw_lo := "R".
Definition _cmd_pw_end := "S".
Definition _cmd_pn_hi := "H".
Definition _cmd_pn_lo := "G".
Definition _cmd_pd := "u".
Definition _cmd_td := "d".
Definition _cmd_fd := "e".
Definition _cmd_enable_ext_trig := "A".
Definition _cmd_fire_ext_trig := "F".

(** ** Built-ins *)

(** [chr(i)]: the one-byte string of code [i]; ValueError outside
    [range(256)]. *)
Definition chr (i : Z) : outcome string :=
  if (0 <=? i) && (i <? 256)
  then Ret (String (ascii_of_N (Z.to_N i)) "")
  else Raise ValueError.

(** [ord(c)] *)
Definition ord (c : ascii) : Z := Z.of_N (N_of_ascii c).

(** [int(x)] on a number: truncation toward zero. *)
Definition py_int (x : Q) : Z := Z.quot (Qnum x) (Zpos (Qden x)).

Definition Qgtb (x y : Q) : bool :=
  match (x ?= y)%Q with Gt => true | _ => false end.
Definition Qltb (x y : Q) : bool :=
  match (x ?= y)%Q with Lt => true | _ => false end.

(** ** Floats

    A Python [float] is an IEEE 754 double: 53 significant bits, and no
    bit below [2^-1074].  The result of [-] and [*] on floats is the exact
    result rounded to the nearest double, a tie going to the even
    significand.  The infinities and NaN are no values here, and overflow
    to infinity (from [2^1024] on) is not represented: the range tests and
    the comparison with 500 come out the same on the number
    [round_double] gives there. *)

Definition pow2 (e : Z) : Q := (2 ^ e)%Q.

(** The binary magnitude of [x > 0]: the [e] with [2^(e-1) <= x < 2^e]. *)
Definition mag (x : Q) : Z :=
  let e0 := Z.log2 (Qnum x) - Z.log2 (Zpos (Qden x)) in
  if Qle_bool (pow2 e0) x then e0 + 1 else e0.

(** The exponent of the last bit of a double of magnitude [e]. *)
Definition fexp (e : Z) : Z := Z.max (e - 53) (- 1074).

(** The nearest integer, a tie going to the even one. *)
Definition rne (q : Q) : Z :=
  let f := Qfloor q in
  match (q - inject_Z f ?= 1 # 2)%Q with
  | Lt => f
  | Gt => f + 1
  | Eq => if Z.even f then f else f + 1
  end.

Definition round_double (x : Q) : Q :=
  if Qeq_bool x 0 then 0%Q
  else
    let e := fexp (mag (Qabs x)) in
    (inject_Z (rne (x / pow2 e)) * pow2 e)%Q.

(** [float(n)] of an int, which is what an int becomes when it meets a
    float in [-] or [*]; [x - y] and [x * y] on floats. *)
Definition py_float (n : Z) : Q := round_double (inject_Z n).
Definition fsub (x y : Q) : Q := round_double (x - y).
Definition fmul (x y : Q) : Q := round_double (x * y).

(** [sub in s] on strings *)
Fixpoint str_in (sub s : string) : bool :=
  prefix sub s ||
  match s with
  | EmptyString => false
  | String _ s' => str_in sub s'
  end.

(** ** Command options and corresponding buffer outputs *)

Definition command_pulse_height (par : Z) : outcome (list string * string) :=
  if (par >? _max_pulse_height) || (par <? 0)
  then Raise (Tellie (InvalidPulseHeight par))
  else
    let hi := Z.shiftr par 8 in
    let lo := Z.land par 255 in
    let? chi := chr hi in
    let command := [_cmd_ph_hi +++ chi] in
    let? clo := chr lo in
    let command := command ++ [_cmd_ph_lo +++ clo] in
    let command := command ++ [_cmd_ph_end] in
    let buffer_check := _cmd_ph_hi +++ _cmd_ph_lo +++ _cmd_ph_end in
    Ret (command, buffer_check).

Definition command_pulse_width (par : Z) : outcome (list string * string) :=
  if (par >? _max_pulse_width) || (par <? 0)
  then Raise (Tellie (InvalidPulseWidth par))
  else
    let hi := Z.shiftr par 8 in
    let lo := Z.land par 255 in
    let? chi := chr hi in
    let command := [_cmd_pw_hi +++ chi] in
    let? clo := chr lo in
    let command := command ++ [_cmd_pw_lo +++ clo +++ _cmd_pw_end] in
    let buffer_check := _cmd_pw_hi +++ _cmd_pw_lo +++ _cmd_pw_end in
    Ret (command, buffer_check).

(** [ms] is an int: [par-ms] and the product with 250 are float
    operations.  (On an int [par] they are exact and give 0, as here.) *)
Definition command_pulse_delay (par : Q) : outcome (list string * string) :=
  if Qgtb par _max_pulse_delay || Qltb par 0
  then Raise (Tellie (InvalidPulseDelay par))
  else
    let ms := py_int par in
    let us := py_int (fmul (fsub par (py_float ms)) (py_float 250)) in
    let? cms := chr ms in
    let command := [_cmd_pd +++ cms] in
    let? cus := chr us in
    let command := command ++ [cus] in
    let buffer_check := _cmd_pd in
    Ret (command, buffer_check).

(** [par/5] on Python 2 ints is floor division. *)
Definition command_trigger_delay (par : Z) : outcome (list string * string) :=
  if (par >? _max_trigger_delay) || (par <? 0)
  then Raise (Tellie (InvalidTriggerDelay par))
  else
    let? c := chr (par / 5) in
    let command := [_cmd_td +++ c] in
    let buffer_check := _cmd_td in
    Ret (command, buffer_check).

(** The lookup tables of the [parameters] module, which is not part of this
    file: [pulse_number] returns [(adjusted, actual_par, hi, lo)] and
    [fibre_delay] returns [(adjusted, adj_delay, setting)]. *)
Class Parameters : Type := {
  pulse_number : Z -> bool * Z * Z * Z;
  fibre_delay : Q -> bool * Q * Z
}.

(** [par = int(par)] changes nothing on an int. *)
Definition command_pulse_number `{Parameters} (par : Z)
  : outcome (list string * string) :=
  if (par >? _max_pulse_number) || (par <? 0)
  then Raise (Tellie (InvalidPulseNumber par))
  else
    let '(adjusted, actual_par, hi, lo) := pulse_number par in
    if adjusted
    then Raise (Tellie (InvalidPulseNumber par))
    else
      let? chi := chr hi in
      let command := [_cmd_pn_hi +++ chi] in
      let? clo := chr lo in
      let command := command ++ [_cmd_pn_lo +++ clo] in
      let buffer_check := _cmd_pn_hi +++ _cmd_pn_lo in
      Ret (command, buffer_check).

(** The [print] of the lookup result only reports. *)
Definition command_fibre_delay `{Parameters} (par : Q)
  : outcome (list string * string) :=
  if Qgtb par _max_fibre_delay || Qltb par 0
  then Raise (Tellie (InvalidFibreDelay par))
  else
    let '(adjusted, adj_delay, setting) := fibre_delay par in
    if adjusted
    then Raise (Tellie (InvalidDelay par))
    else
      let? c := chr setting in
      let command := [_cmd_fd +++ c] in
      let buffer_check := _cmd_fd in
      Ret (command, buffer_check).

(** ** The serial port

    [self._serial] is a [serial.Serial] object.  [write] may be refused and
    [read] may fail (the library raises: [None] here); a [read n] that
    returns gives at most what arrived before the port timeout, possibly
    nothing. *)
Class Serial (port : Type) : Type := {
  write : string -> port -> option port;
  read : nat -> port -> option (string * port)
}.

(** What the session did on the wire, in order: the accepted writes, the
    reads with what they returned, and the pauses ([time.sleep], seconds). *)
Inductive event : Type :=
| EvWrite (c : string)
| EvRead (n : nat) (got : string)
| EvSleep (seconds : Q).

(** A command is a [str] (single write) or a list of [str]. *)
Inductive command : Type :=
| Str (c : string)
| List (l : list string).

(** Subscripting a Python list, negative subscripts counting from the end. *)
Definition py_index {A} (l : list A) (i : Z) : option nat :=
  let n := Z.of_nat (length l) in
  if (0 <=? i) && (i <? n) then Some (Z.to_nat i)
  else if (- n <=? i) && (i <? 0) then Some (Z.to_nat (n + i))
  else None.

Fixpoint replace_nth {A} (l : list A) (k : nat) (v : A) : list A :=
  match l, k with
  | [], _ => []
  | _ :: t, O => v :: t
  | x :: t, S k' => x :: replace_nth t k' v
  end.

Definition getitem {A} (l : list A) (i : Z) : outcome A :=
  match py_index l i with
  | Some k => match nth_error l k with
              | Some x => Ret x
              | None => Raise IndexError
              end
  | None => Raise IndexError
  end.

Definition setitem {A} (l : list A) (i : Z) (v : A) : outcome (list A) :=
  match py_index l i with
  | Some k => Ret (replace_nth l k v)
  | None => Raise IndexError
  end.

(** [x is None] *)
Definition is_None {A} (x : option A) : bool :=
  match x with
  | None => true
  | Some _ => false
  end.

(** [par == cached] where the cached value may be [None]. *)
Definition eq_cached {A} (eqb : A -> A -> bool) (par : A) (cur : option A)
  : bool :=
  match cur with
  | Some v => eqb par v
  | None => false
  end.

Section Session.

Context {port : Type} `{Serial port} `{Parameters}.

(** ** The [SerialCommand] object

    The attributes set by [__init__], the port itself, [_channel] (bound
    by the chip class that inherits from this one and selects channels) and
    the record [wire] of what went over the port.  [_current_fd] is [None]
    here; [set_fibre_delay] subscripts it by channel, so a chip class binds
    it to a per-channel list. *)
Record SerialCommand : Type := mkSerialCommand {
  _serial : port;
  _current_ph : option Z;
  _current_fd : option (list (option Q));
  _current_pn : option Z;
  _current_pd : option Q;
  _current_td : option Z;
  _firing : bool;
  _force_setting : bool;
  _channel : list Z;
  wire : list event
}.

Definition with_serial (p : port) (ev : list event) (s : SerialCommand) :=
  mkSerialCommand p (_current_ph s) (_current_fd s) (_current_pn s)
    (_current_pd s) (_current_td s) (_firing s) (_force_setting s)
    (_channel s) (wire s ++ ev).
Definition with_wire (ev : list event) (s : SerialCommand) :=
  with_serial (_serial s) ev s.
Definition with_current_ph (v : option Z) (s : SerialCommand) :=
  mkSerialCommand (_serial s) v (_current_fd s) (_current_pn s)
    (_current_pd s) (_current_td s) (_firing s) (_force_setting s)
    (_channel s) (wire s).
Definition with_current_fd (v : option (list (option Q))) (s : SerialCommand) :=
  mkSerialCommand (_serial s) (_current_ph s) v (_current_pn s)
    (_current_pd s) (_current_td s) (_firing s) (_force_setting s)
    (_channel s) (wire s).
Definition with_current_pn (v : option Z) (s : SerialCommand) :=
  mkSerialCommand (_serial s) (_current_ph s) (_current_fd s) v
    (_current_pd s) (_current_td s) (_firing s) (_force_setting s)
    (_channel s) (wire s).
Definition with_current_pd (v : option Q) (s : SerialCommand) :=
  mkSerialCommand (_serial s) (_current_ph s) (_current_fd s) (_current_pn s)
    v (_current_td s) (_firing s) (_force_setting s)
    (_channel s) (wire s).
Definition with_current_td (v : option Z) (s : SerialCommand) :=
  mkSerialCommand (_serial s) (_current_ph s) (_current_fd s) (_current_pn s)
    (_current_pd s) v (_firing s) (_force_setting s)
    (_channel s) (wire s).
Definition with_firing (b : bool) (s : SerialCommand) :=
  mkSerialCommand (_serial s) (_current_ph s) (_current_fd s) (_current_pn s)
    (_current_pd s) (_current_td s) b (_force_setting s)
    (_channel s) (wire s).
Definition with_force_setting (b : bool) (s : SerialCommand) :=
  mkSerialCommand (_serial s) (_current_ph s) (_current_fd s) (_current_pn s)
    (_current_pd s) (_current_td s) (_firing s) b
    (_channel s) (wire s).

(** ** Methods as state transformers

    A method runs on the object and either returns or raises; what it did
    to the object before raising stays done. *)
Definition M (A : Type) : Type := SerialCommand -> outcome A * SerialCommand.

Definition ret {A} (a : A) : M A := fun s => (Ret a, s).
Definition raise {A} (e : exn) : M A := fun s => (Raise e, s).
Definition bind {A B} (m : M A) (k : A -> M B) : M B :=
  fun s => match m s with
           | (Ret a, s') => k a s'
           | (Raise e, s') => (Raise e, s')
           end.
Definition attr {A} (f : SerialCommand -> A) : M A := fun s => (Ret (f s), s).
Definition assign (f : SerialCommand -> SerialCommand) : M unit :=
  fun s => (Ret tt, f s).
Definition lift {A} (o : outcome A) : M A := fun s => (o, s).

(** [try: m  except: raise e] with a bare [except]. *)
Definition try_except {A} (m : M A) (e : exn) : M A :=
  fun s => match m s with
           | (Ret a, s') => (Ret a, s')
           | (Raise _, s') => (Raise e, s')
           end.

Notation "x <- m ;; k" := (bind m (fun x => k))
  (at level 61, m at next level, right associativity).
Notation "m ;; k" := (bind m (fun _ => k))
  (at level 61, right associativity).

Fixpoint for_each {A} (l : list A) (body : A -> M unit) : M unit :=
  match l with
  | [] => ret tt
  | c :: l' => body c ;; for_each l' body
  end.

Definition serial_write (c : string) : M unit :=
  fun s => match write c (_serial s) with
           | Some p => (Ret tt, with_serial p [EvWrite c] s)
           | None => (Raise SerialException, s)
           end.

Definition serial_read (n : nat) : M string :=
  fun s => match read n (_serial s) with
           | Some (got, p) => (Ret got, with_serial p [EvRead n got] s)
           | None => (Raise SerialException, s)
           end.

Definition sleep (seconds : Q) : M unit :=
  assign (with_wire [EvSleep seconds]).

Definition _check_clear_buffer : M unit :=
  buffer_read <- serial_read 100 ;;
  if negb (buffer_read =? "")%string
  then raise (Tellie (BufferNotClear buffer_read))
  else ret tt.

(** [command] is always a [str] or a list in this module, so the "Command
    is not a list" exception has no caller.  [as_list] is the
    normalisation at the top of [_send_command], [echo_for] the default of
    [buffer_check] ("assume returns same as input"). *)
Definition as_list (command : command) : list string :=
  match command with
  | Str c => [c]
  | List l => l
  end.

Definition echo_for (command : list string) (buffer_check : option string)
  : string :=
  match buffer_check with
  | None | Some "" => fold_left String.append command ""
  | Some b => b
  end.

Definition _send_command (command : command) (readout : bool)
    (buffer_check : option string) : M unit :=
  let command := as_list command in
  try_except (for_each command serial_write) (Tellie ConnectionLost) ;;
  let buffer_check := echo_for command buffer_check in
  if readout then
    buffer_read <- serial_read (String.length buffer_check) ;;
    if negb (buffer_read =? buffer_check)%string then
      sleep (1 # 10) ;;
      remainder <- serial_read 100 ;;
      serial_write "X" ;;
      sleep (1 # 10) ;;
      serial_write "C" ;;
      sleep (1 # 10) ;;
      _ <- serial_read 100 ;;
      raise (Tellie (ProtocolDesync buffer_read remainder buffer_check))
    else ret tt
  else ret tt.

Definition _send_setting_command (command : command)
    (buffer_check : option string) (while_fire : bool) : M unit :=
  firing <- attr _firing ;;
  if firing then
    if negb while_fire then raise (Tellie IllegalWhileFiring)
    else _send_command command false None
  else
    _check_clear_buffer ;;
    _send_command command true buffer_check.

Definition read_buffer (n : nat) : M string := serial_read n.

Definition check_firing : M bool :=
  firing <- attr _firing ;;
  (if firing then
     buf <- read_buffer 100 ;;
     if str_in _buffer_end_sequence buf then assign (with_firing false)
     else ret tt
   else ret tt) ;;
  attr _firing.

Definition enable_external_trig (while_fire : bool) : M unit :=
  firing <- attr _firing ;;
  if firing && negb while_fire then raise (Tellie ExtTrigWhileFiring)
  else _send_command (Str _cmd_enable_ext_trig) true None.

Definition trigger_single : M unit :=
  firing <- attr _firing ;;
  (if firing then
     buf <- read_buffer 100 ;;
     if str_in _buffer_end_sequence buf then assign (with_firing false)
     else raise (Tellie AlreadyFiring)
   else ret tt) ;;
  _send_command (Str _cmd_fire_ext_trig) false None ;;
  assign (with_firing true).

Definition check_ready : M unit :=
  ph <- attr _current_ph ;;
  pn <- attr _current_pn ;;
  pd <- attr _current_pd ;;
  let not_set := [] in
  let not_set := if is_None ph then not_set ++ ["Pulse height"] else not_set in
  let not_set := if is_None pn then not_set ++ ["Pulse number"] else not_set in
  let not_set := if is_None pd then not_set ++ ["Pulse delay"] else not_set in
  match not_set with
  | [] => ret tt
  | _ => raise (Tellie (IncompleteConfiguration not_set))
  end.

(** The pulse number is an int and the pulse delay a float: their product
    is a float product.  (With an int for the pulse delay the product is
    exact, and its comparison with 500 comes out the same.) *)
Definition fire (while_fire : bool) : M unit :=
  firing <- attr _firing ;;
  (if firing && negb while_fire then
     buf <- read_buffer 100 ;;
     if str_in _buffer_end_sequence buf then assign (with_firing false)
     else raise (Tellie AlreadyFiring)
   else ret tt) ;;
  check_ready ;;
  let buffer_check := _cmd_fire_series in
  pn <- attr _current_pn ;;
  pd <- attr _current_pd ;;
  match pn, pd with
  | Some pn, Some pd =>
      (if Qltb (fmul (py_float pn) pd) 500 then
         let buffer_check := buffer_check +++ _buffer_end_sequence in
         _send_command (Str _cmd_fire_series) true (Some buffer_check)
       else
         _send_command (Str _cmd_fire_series) true (Some buffer_check) ;;
         assign (with_firing true)) ;;
      assign (with_force_setting false)
  | _, _ => raise TypeError
  end.

(** [while_fire] is accepted and not used. *)
Definition fire_sequence (while_fire : bool) : M unit :=
  check_ready ;;
  _send_command (Str _cmd_fire_series) false None ;;
  assign (with_firing true) ;;
  assign (with_force_setting false).

Definition fire_continuous : M unit :=
  firing <- attr _firing ;;
  (if firing then
     buf <- read_buffer 100 ;;
     if str_in _buffer_end_sequence buf then assign (with_firing false)
     else raise (Tellie AlreadyFiring)
   else ret tt) ;;
  _send_command (Str _cmd_fire_continuous) false None ;;
  assign (with_firing true) ;;
  assign (with_force_setting false).

Definition stop : M string :=
  _send_command (Str _cmd_stop) false None ;;
  buffer_contents <- serial_read 100 ;;
  assign (with_firing false) ;;
  ret buffer_contents.

Definition set_pulse_height (par : Z) : M unit :=
  cur <- attr _current_ph ;;
  force <- attr _force_setting ;;
  if eq_cached Z.eqb par cur && negb force then ret tt
  else
    cb <- lift (command_pulse_height par) ;;
    _send_setting_command (List (fst cb)) (Some (snd cb)) false ;;
    assign (with_current_ph (Some par)).

Definition set_pulse_number (par : Z) : M unit :=
  cur <- attr _current_pn ;;
  force <- attr _force_setting ;;
  if eq_cached Z.eqb par cur && negb force then ret tt
  else
    cb <- lift (command_pulse_number par) ;;
    _send_setting_command (List (fst cb)) (Some (snd cb)) false ;;
    assign (with_current_pn (Some par)).

Definition set_pulse_delay (par : Q) : M unit :=
  cur <- attr _current_pd ;;
  force <- attr _force_setting ;;
  if eq_cached Qeq_bool par cur && negb force then ret tt
  else
    cb <- lift (command_pulse_delay par) ;;
    _send_setting_command (List (fst cb)) (Some (snd cb)) false ;;
    assign (with_current_pd (Some par)).

Definition set_trigger_delay (par : Z) : M unit :=
  cur <- attr _current_td ;;
  force <- attr _force_setting ;;
  if eq_cached Z.eqb par cur && negb force then ret tt
  else
    cb <- lift (command_trigger_delay par) ;;
    _send_setting_command (List (fst cb)) (Some (snd cb)) false ;;
    assign (with_current_td (Some par)).

(** [_send_channel_setting_command] is called by [set_fibre_delay] and
    defined by no class of this module: it is the chip class's, and is taken
    as given. *)
Variable _send_channel_setting_command : command -> option string -> M unit.

Definition set_fibre_delay (par : Q) : M unit :=
  channel <- attr _channel ;;
  if negb (length channel =? 1)%nat
  then raise (Tellie (ChannelsSet channel))
  else
    fd <- attr _current_fd ;;
    ch <- lift (getitem channel 0) ;;
    cur <- match fd with
           | Some l => lift (getitem l ch)
           | None => raise TypeError
           end ;;
    force <- attr _force_setting ;;
    if eq_cached Qeq_bool par cur && negb force then ret tt
    else
      cb <- lift (command_fibre_delay par) ;;
      _send_channel_setting_command (List (fst cb)) (Some (snd cb)) ;;
      fd <- attr _current_fd ;;
      channel <- attr _channel ;;
      ch <- lift (getitem channel 0) ;;
      match fd with
      | Some l =>
          l' <- lift (setitem l ch (Some par)) ;;
          assign (with_current_fd (Some l'))
      | None => raise TypeError
      end.

(** The setters seen as one operation on a parameter kind and a value. *)
Inductive setting : Type :=
| PulseHeight (par : Z)
| PulseNumber (par : Z)
| PulseDelay (par : Q)
| TriggerDelay (par : Z)
| FibreDelay (par : Q).

Definition set_setting (k : setting) : M unit :=
  match k with
  | PulseHeight par => set_pulse_height par
  | PulseNumber par => set_pulse_number par
  | PulseDelay par => set_pulse_delay par
  | TriggerDelay par => set_trigger_delay par
  | FibreDelay par => set_fibre_delay par
  end.

End Session.

Arguments SerialCommand port : clear implicits.
Arguments M port : clear implicits.

(** * Vocabulary of the properties *)

(** The one-byte string of code [i]. *)
Definition byte (i : Z) : string := String (ascii_of_N (Z.to_N i)) "".

(** [round(x)] of Python 2: to the nearest integer, halves away from
    zero. *)
Definition py_round (x : Q) : Z :=
  if Qltb x 0 then - Qfloor (- x + (1 # 2)) else Qfloor (x + (1 # 2)).

(** The sub-unit in the words of the specification:
    [round((value - floor(value)) * 250)]. *)
Definition rounded_sub_unit (value : Q) : Z :=
  py_round ((value - inject_Z (Qfloor value)) * 250).

(** [x] is a double: rounding leaves it as it is. *)
Definition is_double (x : Q) : bool := Qeq_bool (round_double x) x.

(** [self._current_pn * self._current_pd] as [fire] computes it. *)
Definition train_product (n : Z) (d : Q) : Q := fmul (py_float n) d.

(** The doubles written [0.3], [0.7] and [500/3.]. *)
Definition double_0_3 : Q := 5404319552844595 # 18014398509481984.
Definition double_0_7 : Q := 3152519739159347 # 4503599627370496.
Definition double_500_3 : Q := 5864062014805333 # 35184372088832.

(** The arithmetic of [command_pulse_delay] and of [fire] on the IEEE
    doubles of the standard library (53 bits of precision, exponent bound
    1024), to check [round_double] against: the double of an integer, the
    rational a double denotes, and the two byte values [ms = int(par)] and
    [us = int((par-ms)*250)] with the subtraction and the product as IEEE
    operations. *)
Definition double_of_Z (z : Z) : spec_float :=
  binary_normalize 53 1024 z 0 false.

Definition Q_of_double (x : spec_float) : Q :=
  match x with
  | S754_finite s m e =>
      ((if s then - 1 else 1) * inject_Z (Zpos m) * Qpower 2 e)%Q
  | _ => 0%Q
  end.

Definition pulse_delay_parts_double (par : spec_float) : Z * Z :=
  let ms := py_int (Q_of_double par) in
  let us :=
    py_int (Q_of_double
              (SFmul 53 1024 (SFsub 53 1024 par (double_of_Z ms))
                 (double_of_Z 250))) in
  (ms, us).

(** The double written [256.020]. *)
Definition max_pulse_delay_double : spec_float :=
  SFdiv 53 1024 (double_of_Z 256020) (double_of_Z 1000).

(** The doubles written [2**-8], [0.3], [0.7] and [500/3.], as
    significand and exponent. *)
Definition ieee_1_256 : spec_float := S754_finite false (2 ^ 52) (- 60).
Definition ieee_0_3 : spec_float :=
  S754_finite false 5404319552844595 (- 54).
Definition ieee_0_7 : spec_float :=
  S754_finite false 6305039478318694 (- 53).
Definition ieee_500_3 : spec_float :=
  S754_finite false 5864062014805333 (- 45).

(** The byte values of [command_pulse_delay] as the model gives them. *)
Definition pulse_delay_parts (par : Q) : Z * Z :=
  let ms := py_int par in
  (ms, py_int (fmul (fsub par (py_float ms)) (py_float 250))).

(** The double written [i/10.], and the test that the model and the IEEE
    operations agree on it: it is the double nearest to [i/10], the two
    byte values of [command_pulse_delay] are the same, and so is the
    product of [fire] for seven pulses. *)
Definition tenth (i : Z) : spec_float :=
  SFdiv 53 1024 (double_of_Z i) (double_of_Z 10).

Definition agrees_at_tenth (i : Z) : bool :=
  let x := tenth i in
  let q := Q_of_double x in
  Qeq_bool q (round_double (i # 10)) &&
  (let '(ms, us) := pulse_delay_parts_double x in
   let '(ms', us') := pulse_delay_parts q in
   (ms =? ms') && (us =? us')) &&
  Qeq_bool (Q_of_double (SFmul 53 1024 (double_of_Z 7) x))
    (train_product 7 q).

Fixpoint all_upto (n : nat) (f : Z -> bool) : bool :=
  match n with
  | O => f 0
  | S k => f (Z.of_nat n) && all_upto k f
  end.

Section Vocabulary.

Context {port : Type} `{Serial port} `{Parameters}.

Abbreviation obj := (SerialCommand port).

(** The five cached settings. *)
Definition caches (s : obj) :=
  (_current_ph s, _current_fd s, _current_pn s, _current_pd s, _current_td s).

(** [s'] differs from [s] at most by the port and the wire record. *)
Definition same_settings (s s' : obj) : Prop :=
  caches s' = caches s /\ _firing s' = _firing s /\
  _force_setting s' = _force_setting s /\ _channel s' = _channel s.

(** Writing the units of a command one after the other. *)
Fixpoint write_all (units : list string) (p : port) : option port :=
  match units with
  | [] => Some p
  | c :: rest =>
      match write c p with
      | Some p' => write_all rest p'
      | None => None
      end
  end.



(** The setters whose send goes through [_send_setting_command] of this
    module; the fibre delay goes through the chip class. *)
Definition is_core (k : setting) : bool :=
  match k with
  | FibreDelay _ => false
  | _ => true
  end.

(** The encoder a setter calls. *)
Definition encode (k : setting) : outcome (list string * string) :=
  match k with
  | PulseHeight par => command_pulse_height par
  | PulseNumber par => command_pulse_number par
  | PulseDelay par => command_pulse_delay par
  | TriggerDelay par => command_trigger_delay par
  | FibreDelay par => command_fibre_delay par
  end.

(** The value equals the cached one: the first half of a setter's test.
    For the fibre delay the cache is read at the one selected channel. *)
Definition cached (k : setting) (s : obj) : bool :=
  match k with
  | PulseHeight par => eq_cached Z.eqb par (_current_ph s)
  | PulseNumber par => eq_cached Z.eqb par (_current_pn s)
  | PulseDelay par => eq_cached Qeq_bool par (_current_pd s)
  | TriggerDelay par => eq_cached Z.eqb par (_current_td s)
  | FibreDelay par =>
      match _channel s, _current_fd s with
      | [ch], Some l =>
          match getitem l ch with
          | Ret cur => eq_cached Qeq_bool par cur
          | Raise _ => false
          end
      | _, _ => false
      end
  end.

(** The assignment that ends a setter of this module. *)
Definition store (k : setting) (s : obj) : obj :=
  match k with
  | PulseHeight par => with_current_ph (Some par) s
  | PulseNumber par => with_current_pn (Some par) s
  | PulseDelay par => with_current_pd (Some par) s
  | TriggerDelay par => with_current_td (Some par) s
  | FibreDelay _ => s
  end.

End Vocabulary.

(** ** A port for worked examples

    It replays a script: each [read] returns the next scripted reply, cut to
    the number of bytes asked for, and nothing once the script is over; it
    accepts [accepts] more writes and refuses the rest.  Its reads never
    fail. *)
Module Replay.

Record port : Type := mkPort {
  replies : list string;
  accepts : nat
}.

#[global] Instance serial : Serial port := {|
  write c p :=
    match accepts p with
    | O => None
    | S n => Some (mkPort (replies p) n)
    end;
  read n p :=
    match replies p with
    | [] => Some ("", p)
    | r :: rest => Some (substring 0 n r, mkPort rest (accepts p))
    end
|}.

(** A stand-in for the lookup tables: counts up to 255 go out as they are
    and delays in steps of half a unit. *)
#[global] Instance parameters : Parameters := {|
  pulse_number n := (255 <? n, n, 1, n);
  fibre_delay d := (false, d, py_int (d * 2))
|}.

Definition new (p : port) : SerialCommand port :=
  mkSerialCommand p None None None None None false false [] [].

(** Pulse height 100, ten pulses one millisecond apart. *)
Definition configured (p : port) (firing : bool) : SerialCommand port :=
  mkSerialCommand p (Some 100) None (Some 10) (Some 1%Q) None firing false
    [] [].

(** The chip class's channel command, for the examples: the module's own
    setting command. *)
Definition channel_command (c : command) (b : option string)
  : M port unit :=
  _send_setting_command c b false.

End Replay.

(** A replay port whose link breaks for good: it returns [lasts] more
    reads and fails every read after them. *)
Module Breaking.

Record port : Type := mkPort {
  inner : Replay.port;
  lasts : nat
}.

#[global] Instance serial : Serial port := {|
  write c p :=
    match write c (inner p) with
    | Some q => Some (mkPort q (lasts p))
    | None => None
    end;
  read n p :=
    match lasts p with
    | O => None
    | S k =>
        match read n (inner p) with
        | Some (got, q) => Some (got, mkPort q k)
        | None => None
        end
    end
|}.

(** Pulse height 100, ten pulses one millisecond apart. *)
Definition configured (p : port) (firing : bool) : SerialCommand port :=
  mkSerialCommand p (Some 100) None (Some 10) (Some 1%Q) None firing false
    [] [].

End Breaking.

(** States for the worked examples. *)
Module Examples.

Import Replay.

(** Mid pulse train: the firing flag is set and the buffer holds no end
    marker. *)
Definition busy : SerialCommand port := configured (mkPort [""] 8) true.

(** Mid pulse train with the link down: every write is refused. *)
Definition unplugged : SerialCommand port := configured (mkPort [] 0) true.



(** The buffer is clear and the device echoes the pulse height command. *)
Definition echoing_height : SerialCommand port :=
  configured (mkPort [""; "LMP"] 8) false.

(** Stale bytes sit in the buffer. *)
Definition stale : SerialCommand port := configured (mkPort ["K"] 8) false.

(** Three pulses [500/3.] ms apart: the exact product is below 500, the
    float product is 500.0.  The device answers the fire command with its
    echo alone. *)
Definition rounding_train : SerialCommand port :=
  mkSerialCommand (mkPort ["g"] 8) (Some 100) None (Some 3)
    (Some double_500_3) None false false [] [].


(** Mid pulse train on a port that accepts the writes and fails every
    read. *)
Definition deaf : SerialCommand Breaking.port :=
  Breaking.configured (Breaking.mkPort (mkPort [] 8) 0) true.

End Examples.

(** * Properties of the encoders *)

Lemma chr_byte (i : Z) : 0 <= i < 256 -> chr i = Ret (byte i).
Proof.
  intros Hi. unfold chr.
  replace (0 <=? i) with true by (symmetry; apply Z.leb_le; lia).
  replace (i <? 256) with true by (symmetry; apply Z.ltb_lt; lia).
  reflexivity.
Qed.

Lemma chr_out_of_range (i : Z) : 256 <= i -> chr i = Raise ValueError.
Proof.
  intros Hi. unfold chr.
  replace (i <? 256) with false by (symmetry; apply Z.ltb_ge; lia).
  now rewrite andb_false_r.
Qed.

Lemma ord_ascii (i : Z) : 0 <= i < 256 -> ord (ascii_of_N (Z.to_N i)) = i.
Proof.
  intros Hi. unfold ord.
  rewrite N_ascii_embedding by lia.
  apply Z2N.id. lia.
Qed.

Lemma shiftr8_land255 (h : Z) : Z.shiftr h 8 * 256 + Z.land h 255 = h.
Proof.
  rewrite Z.shiftr_div_pow2 by lia.
  change 255 with (Z.ones 8). rewrite Z.land_ones by lia.
  change (2 ^ 8) with 256.
  pose proof (Z.div_mod h 256). lia.
Qed.

Lemma split_in_range (h : Z) :
  0 <= h <= 16383 ->
  0 <= Z.shiftr h 8 < 64 /\ 0 <= Z.land h 255 < 256.
Proof.
  intros Hh.
  rewrite Z.shiftr_div_pow2 by lia.
  change 255 with (Z.ones 8). rewrite Z.land_ones by lia.
  change (2 ^ 8) with 256.
  split.
  - split; [apply Z.div_pos; lia | apply Z.div_lt_upper_bound; lia].
  - apply Z.mod_pos_bound. lia.
Qed.

Lemma height_guard (par : Z) :
  0 <= par <= 16383 -> (par >? 16383) || (par <? 0) = false.
Proof.
  intros Hp. apply orb_false_iff. split.
  - rewrite Z.gtb_ltb. apply Z.ltb_ge. lia.
  - apply Z.ltb_ge. lia.
Qed.

Lemma command_pulse_height_ok (par : Z) :
  0 <= par <= _max_pulse_height ->
  command_pulse_height par =
    Ret ([_cmd_ph_hi +++ byte (Z.shiftr par 8);
          _cmd_ph_lo +++ byte (Z.land par 255);
          _cmd_ph_end], "LMP").
Proof.
  unfold _max_pulse_height. intros Hp.
  destruct (split_in_range par Hp) as [Hhi Hlo].
  unfold command_pulse_height, _max_pulse_height.
  rewrite height_guard by assumption.
  rewrite (chr_byte (Z.shiftr par 8)) by lia.
  rewrite (chr_byte (Z.land par 255)) by lia.
  reflexivity.
Qed.

Lemma command_pulse_width_ok (par : Z) :
  0 <= par <= _max_pulse_width ->
  command_pulse_width par =
    Ret ([_cmd_pw_hi +++ byte (Z.shiftr par 8);
          _cmd_pw_lo +++ byte (Z.land par 255) +++ _cmd_pw_end], "QRS").
Proof.
  unfold _max_pulse_width. intros Hp.
  destruct (split_in_range par Hp) as [Hhi Hlo].
  unfold command_pulse_width, _max_pulse_width.
  rewrite height_guard by assumption.
  rewrite (chr_byte (Z.shiftr par 8)) by lia.
  rewrite (chr_byte (Z.land par 255)) by lia.
  reflexivity.
Qed.

Lemma command_trigger_delay_ok (par : Z) :
  0 <= par <= _max_trigger_delay ->
  command_trigger_delay par = Ret ([_cmd_td +++ byte (par / 5)], "d")
  /\ 0 <= par / 5 < 256.
Proof.
  unfold _max_trigger_delay. intros Hp.
  assert (Hq : 0 <= par / 5 < 256).
  { split; [apply Z.div_pos; lia | apply Z.div_lt_upper_bound; lia]. }
  split; [| exact Hq].
  unfold command_trigger_delay, _max_trigger_delay.
  replace ((par >? 1275) || (par <? 0)) with false.
  - now rewrite chr_byte.
  - symmetry. apply orb_false_iff. split.
    + rewrite Z.gtb_ltb. apply Z.ltb_ge. lia.
    + apply Z.ltb_ge. lia.
Qed.

(** ** Pulse delay *)

Lemma Qgtb_false (x y : Q) : (x <= y)%Q -> Qgtb x y = false.
Proof.
  intros Hle. unfold Qgtb.
  destruct (x ?= y)%Q eqn:E; try reflexivity.
  apply Qgt_alt in E. exfalso. exact (Qlt_not_le _ _ E Hle).
Qed.

Lemma Qgtb_true (x y : Q) : (y < x)%Q -> Qgtb x y = true.
Proof.
  intros Hlt. unfold Qgtb.
  pose proof (proj1 (Qgt_alt x y) Hlt) as E. now rewrite E.
Qed.

Lemma Qltb_false (x y : Q) : (y <= x)%Q -> Qltb x y = false.
Proof.
  intros Hle. unfold Qltb.
  destruct (x ?= y)%Q eqn:E; try reflexivity.
  apply Qlt_alt in E. exfalso. exact (Qlt_not_le _ _ E Hle).
Qed.

Lemma Qltb_true (x y : Q) : (x < y)%Q -> Qltb x y = true.
Proof.
  intros Hlt. unfold Qltb.
  pose proof (proj1 (Qlt_alt x y) Hlt) as E. now rewrite E.
Qed.

Lemma py_int_floor (x : Q) : (0 <= x)%Q -> py_int x = Qfloor x.
Proof.
  destruct x as [n d]. unfold Qle, py_int, Qfloor. simpl.
  intros Hn. apply Z.quot_div_nonneg; lia.
Qed.

Lemma Qfloor_bounds (x : Q) (a b : Z) :
  (inject_Z a <= x)%Q -> (x < inject_Z b)%Q -> a <= Qfloor x < b.
Proof.
  intros Ha Hb. split.
  - apply Qfloor_resp_le in Ha. now rewrite Qfloor_Z in Ha.
  - assert (Hlt : (inject_Z (Qfloor x) < inject_Z b)%Q).
    { eapply Qle_lt_trans; [apply Qfloor_le | exact Hb]. }
    now rewrite <- Zlt_Qlt in Hlt.
Qed.

(** ** Powers of two and the binary magnitude *)

Lemma pow2_pos (e : Z) : (0 < pow2 e)%Q.
Proof. apply Qpower_0_lt. reflexivity. Qed.

Lemma pow2_plus (a b : Z) : (pow2 (a + b) == pow2 a * pow2 b)%Q.
Proof. apply Qpower_plus. discriminate. Qed.

Lemma pow2_Z (n : Z) : 0 <= n -> (pow2 n == inject_Z (2 ^ n))%Q.
Proof. intros Hn. symmetry. now apply Zpower_Qpower. Qed.

Lemma pow2_lt (a b : Z) : a < b -> (pow2 a < pow2 b)%Q.
Proof. intros H. apply Qpower_lt_compat_l; [exact H | reflexivity]. Qed.

Lemma pow2_le (a b : Z) : a <= b -> (pow2 a <= pow2 b)%Q.
Proof. intros H. apply Qpower_le_compat_l; [exact H | discriminate]. Qed.

Lemma pow2_lt_inv (a b : Z) : (pow2 a < pow2 b)%Q -> a < b.
Proof. intros H. apply Qpower_lt_compat_l_inv with (q := 2%Q); [exact H | reflexivity]. Qed.

Lemma mag_spec (x : Q) :
  (0 < x)%Q -> (pow2 (mag x - 1) <= x)%Q /\ (x < pow2 (mag x))%Q.
Proof.
  intros Hx.
  set (ln := Z.log2 (Qnum x)). set (ld := Z.log2 (Zpos (Qden x))).
  assert (Hn : 0 < Qnum x) by (destruct x as [n d]; unfold Qlt in Hx; simpl in *; lia).
  assert (Hln : 0 <= ln) by apply Z.log2_nonneg.
  assert (Hld : 0 <= ld) by apply Z.log2_nonneg.
  destruct (Z.log2_spec (Qnum x) Hn) as [Hn1 Hn2]. fold ln in Hn1, Hn2.
  destruct (Z.log2_spec (Zpos (Qden x)) eq_refl) as [Hd1 Hd2].
  fold ld in Hd1, Hd2.
  assert (Hxd : (x * inject_Z (Zpos (Qden x)) == inject_Z (Qnum x))%Q).
  { destruct x as [n d]. unfold Qeq, Qmult, inject_Z. simpl. lia. }
  assert (Hup : (x < pow2 (ln - ld + 1))%Q).
  { apply (Qmult_lt_r _ _ (pow2 ld)); [apply pow2_pos |].
    rewrite <- pow2_plus. replace (ln - ld + 1 + ld) with (Z.succ ln) by lia.
    apply Qle_lt_trans with (inject_Z (Qnum x)).
    - rewrite <- Hxd. apply Qmult_le_l; [exact Hx |].
      rewrite pow2_Z by exact Hld. now rewrite <- Zle_Qle.
    - rewrite pow2_Z by lia. now rewrite <- Zlt_Qlt. }
  assert (Hlo : (pow2 (ln - ld - 1) < x)%Q).
  { apply (Qmult_lt_r _ _ (pow2 (ld + 1))); [apply pow2_pos |].
    rewrite <- pow2_plus. replace (ln - ld - 1 + (ld + 1)) with ln by lia.
    apply Qle_lt_trans with (inject_Z (Qnum x)).
    - rewrite pow2_Z by exact Hln. now rewrite <- Zle_Qle.
    - rewrite <- Hxd. apply Qmult_lt_l; [exact Hx |].
      rewrite pow2_Z by lia. rewrite <- Zlt_Qlt.
      replace (ld + 1) with (Z.succ ld) by lia. exact Hd2. }
  unfold mag. fold ln ld.
  destruct (Qle_bool (pow2 (ln - ld)) x) eqn:E.
  - apply Qle_bool_iff in E.
    replace (ln - ld + 1 - 1) with (ln - ld) by lia. now split.
  - split; [now apply Qlt_le_weak |].
    apply Qnot_le_lt. intros Hle. apply Qle_bool_iff in Hle. congruence.
Qed.

Lemma mag_unique (x : Q) (e : Z) :
  (pow2 (e - 1) <= x)%Q -> (x < pow2 e)%Q -> mag x = e.
Proof.
  intros Hlo Hhi.
  assert (Hx : (0 < x)%Q) by (eapply Qlt_le_trans; [apply pow2_pos | exact Hlo]).
  destruct (mag_spec x Hx) as [Mlo Mhi].
  assert (mag x - 1 < e)
    by (apply pow2_lt_inv; eapply Qle_lt_trans; [exact Mlo | exact Hhi]).
  assert (e - 1 < mag x)
    by (apply pow2_lt_inv; eapply Qle_lt_trans; [exact Hlo | exact Mhi]).
  lia.
Qed.

Lemma mag_comp (x y : Q) : (0 < x)%Q -> (x == y)%Q -> mag x = mag y.
Proof.
  intros Hx E. symmetry. destruct (mag_spec x Hx) as [Mlo Mhi].
  apply mag_unique; now rewrite <- E.
Qed.

Lemma mag_le (x y : Q) : (0 < x)%Q -> (x <= y)%Q -> mag x <= mag y.
Proof.
  intros Hx Hxy.
  assert (Hy : (0 < y)%Q) by (eapply Qlt_le_trans; eassumption).
  destruct (mag_spec x Hx) as [Xlo _]. destruct (mag_spec y Hy) as [_ Yhi].
  assert (mag x - 1 < mag y); [| lia].
  apply pow2_lt_inv. eapply Qle_lt_trans; [exact Xlo |].
  eapply Qle_lt_trans; [exact Hxy | exact Yhi].
Qed.

Lemma mag_lt_pow2 (x : Q) (k : Z) : (0 < x)%Q -> (x < pow2 k)%Q -> mag x <= k.
Proof.
  intros Hx Hk. destruct (mag_spec x Hx) as [Xlo _].
  assert (mag x - 1 < k); [| lia].
  apply pow2_lt_inv. eapply Qle_lt_trans; eassumption.
Qed.

(** ** The nearest integer *)

Lemma rne_comp (q q' : Q) : (q == q')%Q -> rne q = rne q'.
Proof.
  intros E. unfold rne. rewrite (Qfloor_comp _ _ E).
  assert (E2 : (q - inject_Z (Qfloor q') ?= 1 # 2)%Q
               = (q' - inject_Z (Qfloor q') ?= 1 # 2)%Q) by now rewrite E.
  now rewrite E2.
Qed.

Lemma rne_floor_or_next (q : Q) : rne q = Qfloor q \/ rne q = Qfloor q + 1.
Proof.
  unfold rne. destruct (_ ?= _)%Q; [destruct (Z.even _) | |]; auto.
Qed.

Lemma rne_ge (q : Q) (k : Z) : (inject_Z k <= q)%Q -> k <= rne q.
Proof.
  intros H. apply Qfloor_resp_le in H. rewrite Qfloor_Z in H.
  destruct (rne_floor_or_next q); lia.
Qed.

Lemma rne_le (q : Q) (k : Z) : (q <= inject_Z k)%Q -> rne q <= k.
Proof.
  intros H. pose proof (Qfloor_resp_le _ _ H) as Hf. rewrite Qfloor_Z in Hf.
  unfold rne.
  destruct (q - inject_Z (Qfloor q) ?= 1 # 2)%Q eqn:E;
    [destruct (Z.even (Qfloor q)) |..]; try lia.
  - apply Qeq_alt in E.
    assert (Qfloor q <> k); [| lia]. intros Ek. rewrite Ek in E.
    assert (Hq : (q - inject_Z k <= 0)%Q).
    { unfold Qminus. rewrite <- (Qplus_opp_r (inject_Z k)).
      now apply Qplus_le_l. }
    rewrite E in Hq. apply (Qlt_not_le 0 (1 # 2)); [reflexivity | exact Hq]. 
  - apply Qgt_alt in E.
    assert (Qfloor q <> k); [| lia]. intros Ek. rewrite Ek in E.
    assert (Hq : (q - inject_Z k <= 0)%Q).
    { unfold Qminus. rewrite <- (Qplus_opp_r (inject_Z k)).
      now apply Qplus_le_l. }
    apply (Qlt_not_le _ _ E). eapply Qle_trans; [exact Hq | discriminate].
Qed.

(** Below the midpoint the floor is taken. *)
Lemma rne_below_half (q : Q) (k : Z) :
  (q < inject_Z k - (1 # 2))%Q -> rne q <= k - 1.
Proof.
  intros H.
  assert (Hk : (q <= inject_Z k)%Q).
  { apply Qlt_le_weak. eapply Qlt_le_trans; [exact H |].
    unfold Qminus. rewrite <- (Qplus_0_r (inject_Z k)) at 2.
    apply Qplus_le_r. discriminate. }
  pose proof (Qfloor_resp_le _ _ Hk) as Hf. rewrite Qfloor_Z in Hf.
  assert (Hne : Qfloor q <> k).
  { intros Ek. pose proof (Qfloor_le q) as Hfl. rewrite Ek in Hfl.
    apply (Qlt_not_le _ _ H). eapply Qle_trans; [| exact Hfl].
    unfold Qminus. rewrite <- (Qplus_0_r (inject_Z k)) at 2.
    apply Qplus_le_r. discriminate. }
  destruct (Z.eq_dec (Qfloor q) (k - 1)) as [Ek | Ek].
  - unfold rne. rewrite Ek.
    assert (E : (q - inject_Z (k - 1) ?= 1 # 2)%Q = Lt).
    { apply Qlt_alt. 
      apply Qplus_lt_l with (z := (inject_Z k - 1)%Q).
      unfold Z.sub. rewrite inject_Z_plus.
      setoid_replace (q - (inject_Z k + inject_Z (- 1)) + (inject_Z k - 1))%Q with q
        by (simpl; ring).
      setoid_replace ((1 # 2) + (inject_Z k - 1))%Q with (inject_Z k - (1 # 2))%Q
        by ring.
      exact H. }
    rewrite E. lia.
  - destruct (rne_floor_or_next q); lia.
Qed.

(** ** Rounding to a double *)

Lemma Qabs_of_nonneg (x : Q) : (0 <= x)%Q -> Qabs x = x.
Proof.
  destruct x as [n d]. unfold Qle. simpl. intros Hn.
  unfold Qabs. f_equal. apply Z.abs_eq. lia.
Qed.

Lemma round_double_pos (x : Q) :
  (0 < x)%Q ->
  round_double x =
    (inject_Z (rne (x / pow2 (fexp (mag x)))) * pow2 (fexp (mag x)))%Q.
Proof.
  intros Hx. unfold round_double.
  destruct (Qeq_bool x 0) eqn:E.
  - apply Qeq_bool_iff in E. rewrite E in Hx. discriminate Hx.
  - now rewrite Qabs_of_nonneg by now apply Qlt_le_weak.
Qed.

Lemma round_double_zero (x : Q) : (x == 0)%Q -> round_double x = 0%Q.
Proof.
  intros E. unfold round_double.
  now rewrite (proj2 (Qeq_bool_iff x 0) E).
Qed.

(** A multiple of [2^g] is a multiple of [2^e] for [e <= g]. *)
Lemma grid_refine (k g e : Z) :
  e <= g -> (inject_Z k * pow2 g == inject_Z (k * 2 ^ (g - e)) * pow2 e)%Q.
Proof.
  intros H. rewrite inject_Z_mult, <- pow2_Z by lia.
  rewrite <- Qmult_assoc, <- pow2_plus.
  now replace (g - e + e) with g by lia.
Qed.

Lemma round_double_le_grid (x : Q) (k g : Z) :
  (0 < x)%Q -> (x <= inject_Z k * pow2 g)%Q -> fexp (mag x) <= g ->
  (round_double x <= inject_Z k * pow2 g)%Q.
Proof.
  intros Hx Hle Hg. rewrite (round_double_pos x Hx).
  set (e := fexp (mag x)) in *.
  rewrite (grid_refine k g e Hg) in Hle |- *.
  apply Qmult_le_compat_r; [| apply Qlt_le_weak, pow2_pos].
  rewrite <- Zle_Qle. apply rne_le.
  apply Qle_shift_div_r; [apply pow2_pos | exact Hle].
Qed.

Lemma round_double_ge_grid (x : Q) (k g : Z) :
  (0 < x)%Q -> (inject_Z k * pow2 g <= x)%Q -> fexp (mag x) <= g ->
  (inject_Z k * pow2 g <= round_double x)%Q.
Proof.
  intros Hx Hle Hg. rewrite (round_double_pos x Hx).
  set (e := fexp (mag x)) in *.
  rewrite (grid_refine k g e Hg) in Hle |- *.
  apply Qmult_le_compat_r; [| apply Qlt_le_weak, pow2_pos].
  rewrite <- Zle_Qle. apply rne_ge.
  apply Qle_shift_div_l; [apply pow2_pos | exact Hle].
Qed.

Lemma round_double_nonneg (x : Q) : (0 <= x)%Q -> (0 <= round_double x)%Q.
Proof.
  intros Hx. destruct (Qeq_dec x 0) as [E | E].
  - rewrite (round_double_zero x E). discriminate.
  - assert (H0 : (0 < x)%Q).
    { apply Qle_lteq in Hx as [Hx | Hx]; [exact Hx |].
      exfalso. apply E. now symmetry. }
    rewrite (round_double_pos x H0).
    apply Qmult_le_0_compat; [| apply Qlt_le_weak, pow2_pos].
    change 0%Q with (inject_Z 0). rewrite <- Zle_Qle. apply rne_ge.
    apply Qle_shift_div_l; [apply pow2_pos |].
    now rewrite Qmult_0_l.
Qed.

Lemma fexp_small (x : Q) : (0 < x)%Q -> (x < pow2 53)%Q -> fexp (mag x) <= 0.
Proof.
  intros Hx H53. pose proof (mag_lt_pow2 x 53 Hx H53). unfold fexp. lia.
Qed.

(** Rounding does not cross an integer below [2^53]. *)
Lemma round_double_le_int (x : Q) (c : Z) :
  (0 <= x)%Q -> (x <= inject_Z c)%Q -> c < 2 ^ 53 ->
  (round_double x <= inject_Z c)%Q.
Proof.
  intros Hx Hc H53. destruct (Qeq_dec x 0) as [E | E].
  - rewrite (round_double_zero x E). eapply Qle_trans; eassumption.
  - assert (H0 : (0 < x)%Q).
    { apply Qle_lteq in Hx as [Hx | Hx]; [exact Hx |].
      exfalso. apply E. now symmetry. }
    setoid_replace (inject_Z c) with (inject_Z c * pow2 0)%Q
      by (unfold pow2; simpl; ring).
    apply round_double_le_grid; [exact H0 | |].
    + unfold pow2. simpl. now rewrite Qmult_1_r.
    + apply fexp_small; [exact H0 |].
      eapply Qle_lt_trans; [exact Hc |].
      rewrite pow2_Z by lia. now rewrite <- Zlt_Qlt.
Qed.

Lemma round_double_ge_int (x : Q) (c : Z) :
  (0 < x)%Q -> (inject_Z c <= x)%Q -> (x < pow2 53)%Q ->
  (inject_Z c <= round_double x)%Q.
Proof.
  intros H0 Hc H53.
  setoid_replace (inject_Z c) with (inject_Z c * pow2 0)%Q
    by (unfold pow2; simpl; ring).
  apply round_double_ge_grid; [exact H0 | |].
  - unfold pow2. simpl. now rewrite Qmult_1_r.
  - now apply fexp_small.
Qed.

(** Integers below [2^53] are doubles. *)
Lemma round_double_int (n : Z) :
  0 <= n < 2 ^ 53 -> (round_double (inject_Z n) == inject_Z n)%Q.
Proof.
  intros Hn. apply Qle_antisym.
  - apply round_double_le_int; [| apply Qle_refl | lia].
    change 0%Q with (inject_Z 0). rewrite <- Zle_Qle. lia.
  - destruct (Z.eq_dec n 0) as [-> | Hne].
    + apply round_double_nonneg. discriminate.
    + apply round_double_ge_int; [| apply Qle_refl |].
      * change 0%Q with (inject_Z 0). rewrite <- Zlt_Qlt. lia.
      * rewrite pow2_Z by lia. rewrite <- Zlt_Qlt. lia.
Qed.

Lemma round_double_comp (x y : Q) :
  (x == y)%Q -> (round_double x == round_double y)%Q.
Proof.
  intros E. unfold round_double.
  destruct (Qeq_bool x 0) eqn:Ex.
  - apply Qeq_bool_iff in Ex.
    assert (Ey : (y == 0)%Q) by now rewrite <- E.
    now rewrite (proj2 (Qeq_bool_iff y 0) Ey).
  - assert (Ey : Qeq_bool y 0 = false).
    { destruct (Qeq_bool y 0) eqn:Ey; [| reflexivity].
      apply Qeq_bool_iff in Ey. rewrite <- E in Ey.
      apply Qeq_bool_iff in Ey. congruence. }
    rewrite Ey.
    assert (Hpos : (0 < Qabs x)%Q).
    { apply Qeq_bool_neq in Ex.
      pose proof (Qabs_nonneg x) as Hn.
      apply Qle_lteq in Hn as [Hn | Hn]; [exact Hn |].
      exfalso. apply Ex. symmetry in Hn.
      destruct x as [n d]. unfold Qeq in *. simpl in *. lia. }
    assert (Em : mag (Qabs x) = mag (Qabs y)).
    { apply mag_comp; [exact Hpos | now apply Qabs_wd]. }
    rewrite <- Em.
    assert (Er : rne (x / pow2 (fexp (mag (Qabs x)))) =
                 rne (y / pow2 (fexp (mag (Qabs x)))))
      by (apply rne_comp, Qdiv_comp; [exact E | reflexivity]).
    now rewrite Er.
Qed.

Lemma grid_is_double (x : Q) (k g : Z) :
  (0 < x)%Q -> (x == inject_Z k * pow2 g)%Q -> fexp (mag x) <= g ->
  (round_double x == x)%Q.
Proof.
  intros Hx E Hg. apply Qle_antisym.
  - rewrite E at 2. apply round_double_le_grid; try assumption.
    rewrite <- E. apply Qle_refl.
  - rewrite E at 1. apply round_double_ge_grid; try assumption.
    rewrite <- E. apply Qle_refl.
Qed.

Lemma double_on_grid (x : Q) :
  (0 < x)%Q -> is_double x = true ->
  exists m, (x == inject_Z m * pow2 (fexp (mag x)))%Q.
Proof.
  intros Hx Hd. apply Qeq_bool_iff in Hd.
  rewrite (round_double_pos x Hx) in Hd.
  eexists. symmetry. exact Hd.
Qed.

Lemma fexp_le (a b : Z) : a <= b -> fexp a <= fexp b.
Proof. unfold fexp. lia. Qed.

Lemma Qpos_of_nonneg (x : Q) : (0 <= x)%Q -> ~ (x == 0)%Q -> (0 < x)%Q.
Proof.
  intros Hx E. apply Qle_lteq in Hx as [Hx | Hx]; [exact Hx |].
  exfalso. apply E. now symmetry.
Qed.

(** Taking the whole part off a double below [2^53] is exact. *)
Lemma sub_floor_exact (x : Q) :
  is_double x = true -> (0 <= x)%Q -> (x < pow2 53)%Q ->
  (round_double (x - inject_Z (Qfloor x)) == x - inject_Z (Qfloor x))%Q.
Proof.
  intros Hd H0 H53.
  set (f := (x - inject_Z (Qfloor x))%Q).
  assert (Hf0 : (0 <= f)%Q).
  { unfold f, Qminus. rewrite <- Qle_minus_iff. apply Qfloor_le. }
  assert (Hfl : 0 <= Qfloor x).
  { exact (Qfloor_resp_le 0 x H0). }
  assert (Hfx : (f <= x)%Q).
  { unfold f. apply Qplus_le_l with (z := inject_Z (Qfloor x)).
    setoid_replace (x - inject_Z (Qfloor x) + inject_Z (Qfloor x))%Q with x
      by ring.
    rewrite <- (Qplus_0_r x) at 1. apply Qplus_le_r.
    change 0%Q with (inject_Z 0). now rewrite <- Zle_Qle. }
  destruct (Qeq_dec f 0) as [E | E].
  - rewrite (round_double_zero f E). now symmetry.
  - pose proof (Qpos_of_nonneg f Hf0 E) as Hf.
    assert (Hx : (0 < x)%Q) by (eapply Qlt_le_trans; eassumption).
    destruct (double_on_grid x Hx Hd) as [m Hm].
    pose proof (fexp_small x Hx H53) as He.
    set (e := fexp (mag x)) in *.
    apply grid_is_double with (k := m - Qfloor x * 2 ^ (0 - e)) (g := e);
      [exact Hf | |].
    + unfold f. rewrite Hm at 1.
      setoid_replace (inject_Z (Qfloor x))
        with (inject_Z (Qfloor x) * pow2 0)%Q at 1
        by (unfold pow2; simpl; ring).
      rewrite (grid_refine (Qfloor x) 0 e He).
      replace (m - Qfloor x * 2 ^ (0 - e))
        with (m + - (Qfloor x * 2 ^ (0 - e))) by lia.
      rewrite inject_Z_plus, inject_Z_opp. ring.
    + apply fexp_le. now apply mag_le.
Qed.

(** A double below 1 is at most [1 - 2^-53]. *)
Lemma double_below_one (f : Q) :
  is_double f = true -> (0 < f)%Q -> (f < 1)%Q -> (f <= 1 - pow2 (- 53))%Q.
Proof.
  intros Hd H0 H1.
  assert (Hm : mag f <= 0) by (apply mag_lt_pow2; assumption).
  destruct (Z.eq_dec (mag f) 0) as [E0 | E0].
  - destruct (double_on_grid f H0 Hd) as [m Em].
    rewrite E0 in Em. change (fexp 0) with (- 53) in Em.
    assert (Hlt : m < 2 ^ 53).
    { rewrite Zlt_Qlt.
      apply (Qmult_lt_r _ _ (pow2 (- 53))); [apply pow2_pos |].
      rewrite <- Em. eapply Qlt_le_trans; [exact H1 |].
      vm_compute. discriminate. }
    rewrite Em.
    setoid_replace (1 - pow2 (- 53))%Q
      with (inject_Z (2 ^ 53 - 1) * pow2 (- 53))%Q by (vm_compute; reflexivity).
    apply Qmult_le_compat_r; [| apply Qlt_le_weak, pow2_pos].
    rewrite <- Zle_Qle. lia.
  - destruct (mag_spec f H0) as [_ Hhi].
    apply Qlt_le_weak. eapply Qlt_le_trans; [exact Hhi |].
    apply Qle_trans with (pow2 (- 1)); [apply pow2_le; lia |].
    vm_compute. discriminate.
Qed.

Lemma Qfloor_lt (x : Q) (b : Z) : (x < inject_Z b)%Q -> Qfloor x < b.
Proof.
  intros Hb. rewrite Zlt_Qlt.
  eapply Qle_lt_trans; [apply Qfloor_le | exact Hb].
Qed.

(** The product with 250 of a double below 1 rounds below 250. *)
Lemma product_below_250 (f : Q) :
  (0 <= f)%Q -> (f <= 1 - pow2 (- 53))%Q ->
  (round_double (f * 250) < 250)%Q.
Proof.
  intros H0 H1.
  assert (Hx0 : (0 <= f * 250)%Q) by (apply Qmult_le_0_compat; [exact H0 | discriminate]).
  assert (Hx1 : (f * 250 <= (1 - pow2 (- 53)) * 250)%Q)
    by (apply Qmult_le_compat_r; [exact H1 | discriminate]).
  destruct (Qlt_le_dec (f * 250) 249) as [Hlt | Hge].
  - apply Qle_lt_trans with (inject_Z 249); [| reflexivity].
    apply round_double_le_int; [exact Hx0 | now apply Qlt_le_weak | reflexivity].
  - assert (Hpos : (0 < f * 250)%Q)
      by (eapply Qlt_le_trans; [| exact Hge]; reflexivity).
    assert (Hmag : mag (f * 250) = 8).
    { apply mag_unique.
      - eapply Qle_trans; [| exact Hge]. vm_compute. discriminate.
      - eapply Qle_lt_trans; [exact Hx1 |]. vm_compute. reflexivity. }
    rewrite (round_double_pos _ Hpos), Hmag. change (fexp 8) with (- 45).
    apply Qle_lt_trans with (inject_Z (250 * 2 ^ 45 - 1) * pow2 (- 45))%Q;
      [| vm_compute; reflexivity].
    apply Qmult_le_compat_r; [| apply Qlt_le_weak, pow2_pos].
    rewrite <- Zle_Qle. apply rne_below_half.
    apply Qle_lt_trans with ((1 - pow2 (- 53)) * 250 / pow2 (- 45))%Q;
      [| vm_compute; reflexivity].
    apply Qmult_le_compat_r; [exact Hx1 |].
    apply Qlt_le_weak, Qinv_lt_0_compat, pow2_pos.
Qed.

(** ** Pulse delay: the float arithmetic of the sub-unit *)

Lemma py_float_exact (n : Z) : 0 <= n < 2 ^ 53 -> (py_float n == inject_Z n)%Q.
Proof. apply round_double_int. Qed.

Lemma fraction_range (x : Q) :
  (0 <= x - inject_Z (Qfloor x))%Q /\ (x - inject_Z (Qfloor x) < 1)%Q.
Proof.
  pose proof (Qfloor_le x) as Hlo.
  pose proof (Qlt_floor x) as Hhi.
  rewrite inject_Z_plus in Hhi.
  split.
  - unfold Qminus. rewrite <- Qle_minus_iff. exact Hlo.
  - apply Qplus_lt_l with (z := inject_Z (Qfloor x)).
    setoid_replace (x - inject_Z (Qfloor x) + inject_Z (Qfloor x))%Q
      with x by ring.
    setoid_replace (1 + inject_Z (Qfloor x))%Q
      with (inject_Z (Qfloor x) + inject_Z 1)%Q by ring.
    exact Hhi.
Qed.

(** The float that [command_pulse_delay] truncates: the two ints go over
    to floats as they are. *)
Lemma sub_unit_float_eq (par : Q) (ms : Z) :
  0 <= ms < 2 ^ 53 ->
  (fmul (fsub par (py_float ms)) (py_float 250) ==
   round_double (round_double (par - inject_Z ms) * 250))%Q.
Proof.
  intros Hms. unfold fmul, fsub. apply round_double_comp.
  apply Qmult_comp; [| apply (py_float_exact 250); lia].
  apply round_double_comp.
  apply Qplus_comp; [reflexivity |].
  apply Qopp_comp. now apply py_float_exact.
Qed.

Lemma sub_unit_float_bounds (par : Q) :
  (0 <= par)%Q -> (par < 256)%Q ->
  let x := fmul (fsub par (py_float (Qfloor par))) (py_float 250) in
  (0 <= x)%Q /\ (x <= 250)%Q.
Proof.
  intros H0 H256 x.
  assert (Hms : 0 <= Qfloor par < 256) by (apply Qfloor_bounds; assumption).
  destruct (fraction_range par) as [Hf0 Hf1].
  pose proof (round_double_nonneg _ Hf0) as Hr0.
  assert (Hr1 : (round_double (par - inject_Z (Qfloor par)) <= 1)%Q).
  { apply (round_double_le_int _ 1);
      [exact Hf0 | now apply Qlt_le_weak | reflexivity]. }
  assert (Hp0 : (0 <= round_double (par - inject_Z (Qfloor par)) * 250)%Q)
    by (apply Qmult_le_0_compat; [exact Hr0 | discriminate]).
  assert (Hp1 : (round_double (par - inject_Z (Qfloor par)) * 250 <= 250)%Q).
  { setoid_replace 250%Q with (1 * 250)%Q at 2 by reflexivity.
    apply Qmult_le_compat_r; [exact Hr1 | discriminate]. }
  unfold x. rewrite sub_unit_float_eq by lia. split.
  - now apply round_double_nonneg.
  - apply (round_double_le_int _ 250); [exact Hp0 | exact Hp1 | reflexivity].
Qed.

(** Below 256 the encoder returns a command: the whole milliseconds and
    the truncated float product, both within a byte. *)
Lemma command_pulse_delay_below_256 (par : Q) :
  (0 <= par)%Q -> (par < 256)%Q ->
  command_pulse_delay par =
    Ret ([_cmd_pd +++ byte (Qfloor par);
          byte (Qfloor (fmul (fsub par (py_float (Qfloor par)))
                          (py_float 250)))], _cmd_pd).
Proof.
  intros H0 H256.
  assert (Hms : 0 <= Qfloor par < 256) by (apply Qfloor_bounds; assumption).
  destruct (sub_unit_float_bounds par H0 H256) as [Hx0 Hx1].
  assert (Hus : 0 <= Qfloor (fmul (fsub par (py_float (Qfloor par)))
                               (py_float 250)) < 251).
  { apply Qfloor_bounds; [exact Hx0 |].
    eapply Qle_lt_trans; [exact Hx1 | reflexivity]. }
  unfold command_pulse_delay.
  rewrite Qgtb_false, Qltb_false; try assumption.
  - cbn [orb]. cbv zeta. rewrite (py_int_floor par H0).
    rewrite (py_int_floor _ Hx0).
    rewrite (chr_byte (Qfloor par)), (chr_byte (Qfloor _)) by lia.
    reflexivity.
  - apply Qlt_le_weak. eapply Qlt_le_trans; [exact H256 | discriminate].
Qed.

(** ** Pulse height: the high/low split *)

(** C6: for every pulse height [h] in [0, 16383] the encoder returns the
    three units "L"+high, "M"+low, "P" and the echo "LMP", and the two
    payload bytes satisfy [high * 256 + low = h]. *)
Theorem pulse_height_split_is_lossless (h : Z) :
  0 <= h <= 16383 ->
  exists high low : ascii,
    command_pulse_height h =
      Ret ([String "L" (String high ""); String "M" (String low ""); "P"],
           "LMP")
    /\ ord high = Z.shiftr h 8
    /\ ord low = Z.land h 255
    /\ ord high * 256 + ord low = h.
Proof.
  intros Hh.
  destruct (split_in_range h Hh) as [Hhi Hlo].
  exists (ascii_of_N (Z.to_N (Z.shiftr h 8))),
         (ascii_of_N (Z.to_N (Z.land h 255))).
  rewrite !ord_ascii by lia.
  repeat split.
  - now rewrite command_pulse_height_ok.
  - apply shiftr8_land255.
Qed.

Lemma pulse_height_split_is_lossless_at_258 :
  0 <= 258 <= 16383 /\
  exists high low : ascii,
    command_pulse_height 258 =
      Ret ([String "L" (String high ""); String "M" (String low ""); "P"],
           "LMP")
    /\ ord high = Z.shiftr 258 8
    /\ ord low = Z.land 258 255
    /\ ord high * 256 + ord low = 258.
Proof.
  split; [lia | apply (pulse_height_split_is_lossless 258); lia].
Defined.

(** ** Pulse delay: the millisecond byte overflows at the top of the range *)

(** C2: a pulse delay of 256 (and the bound 256.02 itself) passes the range
    test of [command_pulse_delay], its millisecond part is 256, and
    [chr(256)] raises ValueError: no command is produced. *)
Theorem pulse_delay_256_has_no_byte :
  (0 <= 256)%Q /\ (256 <= _max_pulse_delay)%Q /\
  py_int 256 = 256 /\
  command_pulse_delay 256 = Raise ValueError /\
  command_pulse_delay _max_pulse_delay = Raise ValueError.
Proof.
  repeat split; try reflexivity; discriminate.
Qed.

(** The whole top of the accepted range is lost. *)
Lemma pulse_delay_top_of_range_raises (par : Q) :
  (256 <= par)%Q -> (par <= _max_pulse_delay)%Q ->
  command_pulse_delay par = Raise ValueError.
Proof.
  intros Hlo Hhi.
  assert (H0 : (0 <= par)%Q) by (eapply Qle_trans; [| exact Hlo]; discriminate).
  assert (Hms : 256 <= Qfloor par < 257).
  { apply Qfloor_bounds; [exact Hlo |].
    eapply Qle_lt_trans; [exact Hhi | reflexivity]. }
  unfold command_pulse_delay.
  rewrite Qgtb_false, Qltb_false by assumption. simpl.
  rewrite (py_int_floor par H0).
  now rewrite chr_out_of_range by lia.
Qed.

(** [round_double] and the IEEE operations of the standard library agree
    on the values of the worked examples.  256.0 passes the range test
    against the double [256.020], which is the double nearest to 256.02,
    and its millisecond part is 256.  [2**-8], [0.3] and [0.7] give the
    byte values (0, 0), (0, 75) and (0, 175) both ways, the exact products
    with 250 being 250/256 and a little less than 75 and than 175.  Three
    times [500/3.] is 500.0 both ways. *)
Lemma doubles_agree_on_the_examples :
  (Q_of_double (double_of_Z 256) == 256 /\
   SFltb (double_of_Z 256) max_pulse_delay_double = true /\
   Q_of_double max_pulse_delay_double == round_double _max_pulse_delay /\
   pulse_delay_parts_double (double_of_Z 256) = (256, 0) /\
   pulse_delay_parts 256 = (256, 0)) /\
  (Q_of_double ieee_1_256 == 1 # 256 /\
   pulse_delay_parts_double ieee_1_256 = (0, 0) /\
   pulse_delay_parts (1 # 256) = (0, 0) /\
   Q_of_double (SFmul 53 1024 ieee_1_256 (double_of_Z 250)) == 250 # 256) /\
  (Q_of_double ieee_0_3 == double_0_3 /\
   round_double (3 # 10) == double_0_3 /\
   pulse_delay_parts_double ieee_0_3 = (0, 75) /\
   pulse_delay_parts double_0_3 = (0, 75) /\
   Qfloor (double_0_3 * 250) = 74) /\
  (Q_of_double ieee_0_7 == double_0_7 /\
   round_double (7 # 10) == double_0_7 /\
   pulse_delay_parts_double ieee_0_7 = (0, 175) /\
   pulse_delay_parts double_0_7 = (0, 175) /\
   Qfloor (double_0_7 * 250) = 174) /\
  (Q_of_double ieee_500_3 == double_500_3 /\
   round_double (500 # 3) == double_500_3 /\
   Q_of_double (SFmul 53 1024 (double_of_Z 3) ieee_500_3) == 500 /\
   train_product 3 double_500_3 == 500 /\
   (inject_Z 3 * double_500_3 < 500)%Q).
Proof. repeat split; vm_compute; reflexivity. Qed.

(** They agree on every pulse delay of a whole number of tenths of a
    millisecond, from 0.0 to 256.0. *)
Lemma doubles_agree_on_the_tenths :
  all_upto (Z.to_nat 2560) agrees_at_tenth = true.
Proof. vm_compute. reflexivity. Qed.

(** No double lies above the double written [256.020] and at or below
    256.02: on every double the range test against [_max_pulse_delay]
    comes out as the test against that double. *)
Lemma range_test_on_doubles (x : Q) :
  is_double x = true ->
  Qgtb x _max_pulse_delay = Qgtb x (round_double _max_pulse_delay).
Proof.
  intros Hd.
  set (top := round_double _max_pulse_delay).
  assert (Etop : (top == inject_Z 4503951471091384 * pow2 (- 44))%Q)
    by (vm_compute; reflexivity).
  assert (Hlt : (top < _max_pulse_delay)%Q) by (vm_compute; reflexivity).
  assert (Hnext : (_max_pulse_delay <
                   inject_Z (4503951471091384 + 1) * pow2 (- 44))%Q)
    by (vm_compute; reflexivity).
  destruct (Qlt_le_dec top x) as [Hx | Hx].
  - rewrite (Qgtb_true x top Hx).
    destruct (Qlt_le_dec _max_pulse_delay x) as [Hbig | Hin].
    + now apply Qgtb_true.
    + exfalso.
      assert (H0 : (0 < x)%Q)
        by (eapply Qlt_trans; [| exact Hx]; vm_compute; reflexivity).
      assert (Hmag : mag x = 9).
      { apply mag_unique.
        - apply Qlt_le_weak. eapply Qle_lt_trans; [| exact Hx].
          vm_compute. discriminate.
        - eapply Qle_lt_trans; [exact Hin |]. vm_compute. reflexivity. }
      destruct (double_on_grid x H0 Hd) as [m Em].
      rewrite Hmag in Em. change (fexp 9) with (- 44) in Em.
      assert (Hlo : 4503951471091384 < m).
      { rewrite Zlt_Qlt.
        apply (Qmult_lt_r _ _ (pow2 (- 44))); [apply pow2_pos |].
        now rewrite <- Em, <- Etop. }
      assert (Hhi : m < 4503951471091384 + 1).
      { rewrite Zlt_Qlt.
        apply (Qmult_lt_r _ _ (pow2 (- 44))); [apply pow2_pos |].
        rewrite <- Em. eapply Qle_lt_trans; [exact Hin | exact Hnext]. }
      lia.
  - rewrite (Qgtb_false x top Hx).
    apply Qgtb_false. apply Qlt_le_weak.
    eapply Qle_lt_trans; [exact Hx | exact Hlt].
Qed.

(** The other encoders, and the pulse delay below 256, stay within a
    byte. *)
Lemma split_encoders_stay_in_byte (par : Z) :
  0 <= par <= 16383 ->
  (exists c, command_pulse_height par = Ret c) /\
  (exists c, command_pulse_width par = Ret c) /\
  0 <= Z.shiftr par 8 <= 255 /\ 0 <= Z.land par 255 <= 255.
Proof.
  intros Hp. destruct (split_in_range par Hp) as [Hhi Hlo].
  repeat split; try lia.
  - eexists. now apply command_pulse_height_ok.
  - eexists. now apply command_pulse_width_ok.
Qed.

(** ** Pulse delay: what the two bytes are *)

(** C5, as stated, fails at 1/256 ms: the sub-unit byte sent is 0, the
    rounded one would be 1. *)
Lemma pulse_delay_sub_unit_is_not_rounded :
  (0 <= 1 # 256)%Q /\ (1 # 256 <= _max_pulse_delay)%Q /\
  rounded_sub_unit (1 # 256) = 1 /\
  command_pulse_delay (1 # 256) = Ret ([_cmd_pd +++ byte 0; byte 0], _cmd_pd) /\
  command_pulse_delay (1 # 256) <>
    Ret ([_cmd_pd +++ byte (py_int (1 # 256));
          byte (rounded_sub_unit (1 # 256))], _cmd_pd).
Proof.
  split; [discriminate |]. split; [discriminate |]. split; [reflexivity |].
  assert (E : command_pulse_delay (1 # 256) =
              Ret ([_cmd_pd +++ byte 0; byte 0], _cmd_pd))
    by (vm_compute; reflexivity).
  split; [exact E |]. rewrite E. vm_compute. discriminate.
Qed.

(** C5, amended: for every double in [0, 256) the encoder emits the whole
    milliseconds [int(value)] as one byte, in 0..255, and as sub-unit byte
    the float product [(value - int(value)) * 250] truncated, in 0..249.
    The subtraction is exact; the product is the double nearest to the
    exact one, so the byte is the floor of the exact product or, when the
    product rounds up to a whole number, one more.  On these values [int]
    is the floor. *)
Theorem pulse_delay_bytes_are_truncated (par : Q) :
  is_double par = true -> (0 <= par)%Q -> (par < 256)%Q ->
  let ms := Qfloor par in
  let fraction := (par - inject_Z ms)%Q in
  let product := round_double (fraction * 250) in
  let us := Qfloor product in
  command_pulse_delay par = Ret ([_cmd_pd +++ byte ms; byte us], _cmd_pd)
  /\ py_int par = ms
  /\ (fsub par (py_float (py_int par)) == fraction)%Q
  /\ (fmul (fsub par (py_float (py_int par))) (py_float 250) == product)%Q
  /\ py_int (fmul (fsub par (py_float (py_int par))) (py_float 250)) = us
  /\ 0 <= ms <= 255 /\ 0 <= us <= 249
  /\ Qfloor (fraction * 250) <= us <= Qfloor (fraction * 250) + 1.
Proof.
  intros Hd H0 H256 ms fraction product us.
  assert (Hms : 0 <= ms < 256) by (apply Qfloor_bounds; assumption).
  assert (Ems : py_int par = ms) by (apply py_int_floor; assumption).
  assert (H53 : (par < pow2 53)%Q)
    by (eapply Qlt_le_trans; [exact H256 | vm_compute; discriminate]).
  destruct (fraction_range par) as [Hf0 Hf1]. fold ms fraction in Hf0, Hf1.
  (* the subtraction *)
  pose proof (sub_floor_exact par Hd H0 H53) as Hexact.
  fold ms fraction in Hexact.
  assert (Efrac : (fsub par (py_float ms) == fraction)%Q).
  { unfold fsub. rewrite <- Hexact. apply round_double_comp.
    unfold fraction. apply Qplus_comp; [reflexivity |].
    apply Qopp_comp. apply py_float_exact. lia. }
  (* the product *)
  assert (Eprod : (fmul (fsub par (py_float ms)) (py_float 250) == product)%Q).
  { unfold fmul, product. apply round_double_comp.
    apply Qmult_comp; [exact Efrac | apply (py_float_exact 250); lia]. }
  assert (Hx0 : (0 <= fraction * 250)%Q)
    by (apply Qmult_le_0_compat; [exact Hf0 | discriminate]).
  assert (Hx1 : (fraction * 250 < 250)%Q).
  { setoid_replace 250%Q with (1 * 250)%Q at 2 by reflexivity.
    apply Qmult_lt_compat_r; [reflexivity | exact Hf1]. }
  assert (Hp0 : (0 <= product)%Q) by now apply round_double_nonneg.
  (* the float product stays below 250 *)
  assert (Hp1 : (product < 250)%Q).
  { apply product_below_250; [exact Hf0 |].
    destruct (Qeq_dec fraction 0) as [E | E].
    - rewrite E. vm_compute. discriminate.
    - apply double_below_one;
        [now apply Qeq_bool_iff | now apply Qpos_of_nonneg | exact Hf1]. }
  assert (Hus : 0 <= us < 250).
  { split; [exact (Qfloor_resp_le 0 product Hp0) | now apply Qfloor_lt]. }
  assert (Eus : py_int (fmul (fsub par (py_float ms)) (py_float 250)) = us).
  { rewrite py_int_floor by now rewrite Eprod.
    now apply Qfloor_comp. }
  (* the floor of the exact product, or one more *)
  assert (Hnear : Qfloor (fraction * 250) <= us <= Qfloor (fraction * 250) + 1).
  { pose proof (Qfloor_bounds _ 0 250 Hx0 Hx1) as Hc.
    split.
    - assert (H : (inject_Z (Qfloor (fraction * 250)) <= product)%Q).
      { destruct (Qeq_dec (fraction * 250) 0) as [E | E].
        - rewrite (Qfloor_comp _ _ E). exact Hp0.
        - apply round_double_ge_int;
            [now apply Qpos_of_nonneg | apply Qfloor_le |].
          eapply Qlt_le_trans; [exact Hx1 | vm_compute; discriminate]. }
      apply Qfloor_resp_le in H. now rewrite Qfloor_Z in H.
    - assert (H : (product <= inject_Z (Qfloor (fraction * 250) + 1))%Q).
      { apply round_double_le_int;
          [exact Hx0 | apply Qlt_le_weak, Qlt_floor | lia]. }
      apply Qfloor_resp_le in H. now rewrite Qfloor_Z in H. }
  rewrite Ems.
  split; [| repeat split; try assumption; lia].
  rewrite (command_pulse_delay_below_256 par H0 H256). fold ms.
  rewrite <- Eus. rewrite py_int_floor by now rewrite Eprod.
  reflexivity.
Qed.

(** At the double [0.3] the exact product is a little below 75 and the
    float product is 75: the byte sent is 75. *)
Lemma pulse_delay_bytes_are_truncated_at_0_3 :
  is_double double_0_3 = true /\
  (0 <= double_0_3)%Q /\ (double_0_3 < 256)%Q /\
  command_pulse_delay double_0_3 =
    Ret ([_cmd_pd +++ byte 0; byte 75], _cmd_pd) /\
  Qfloor ((double_0_3 - inject_Z (Qfloor double_0_3)) * 250) = 74.
Proof.
  split; [vm_compute; reflexivity |].
  split; [discriminate |]. split; [reflexivity |].
  split; [| vm_compute; reflexivity].
  destruct (pulse_delay_bytes_are_truncated double_0_3) as [E _];
    [vm_compute; reflexivity | discriminate | reflexivity |].
  rewrite E. vm_compute. reflexivity.
Defined.

(** * Properties of the session *)

Section SessionProperties.

Context {port : Type} `{Serial port} `{Parameters}.

Abbreviation obj := (SerialCommand port).

Lemma write_all_one (c : string) (p p1 : port) :
  write c p = Some p1 -> write_all (as_list (Str c)) p = Some p1.
Proof. intros Hw. simpl. now rewrite Hw. Qed.

Lemma bind_assoc {A B C} (m : M port A) (f : A -> M port B)
    (g : B -> M port C) (s : obj) :
  bind (bind m f) g s = bind m (fun a => bind (f a) g) s.
Proof. unfold bind. now destruct (m s) as [[a | e] s']. Qed.

Lemma with_serial_nil (s : obj) : with_serial (_serial s) [] s = s.
Proof. destruct s. unfold with_serial. simpl. now rewrite app_nil_r. Qed.

Lemma with_serial_twice (p1 p2 : port) (e1 e2 : list event) (s : obj) :
  with_serial p2 e2 (with_serial p1 e1 s) = with_serial p2 (e1 ++ e2) s.
Proof. unfold with_serial. simpl. now rewrite app_assoc. Qed.

Lemma serial_write_ok (c : string) (s : obj) (p : port) :
  write c (_serial s) = Some p ->
  serial_write c s = (Ret tt, with_serial p [EvWrite c] s).
Proof. intros Hw. unfold serial_write. now rewrite Hw. Qed.

Lemma serial_write_refused (c : string) (s : obj) :
  write c (_serial s) = None ->
  serial_write c s = (Raise SerialException, s).
Proof. intros Hw. unfold serial_write. now rewrite Hw. Qed.

Lemma serial_read_eq (n : nat) (s : obj) (got : string) (p : port) :
  read n (_serial s) = Some (got, p) ->
  serial_read n s = (Ret got, with_serial p [EvRead n got] s).
Proof. intros Hr. unfold serial_read. now rewrite Hr. Qed.

Lemma serial_read_failed (n : nat) (s : obj) :
  read n (_serial s) = None ->
  serial_read n s = (Raise SerialException, s).
Proof. intros Hr. unfold serial_read. now rewrite Hr. Qed.

Lemma for_each_write_ok (units : list string) :
  forall (s : obj) (p : port),
    write_all units (_serial s) = Some p ->
    for_each units serial_write s =
      (Ret tt, with_serial p (map EvWrite units) s).
Proof.
  induction units as [| c rest IH]; intros s p Hw; simpl in *.
  - injection Hw as <-. unfold ret. now rewrite with_serial_nil.
  - destruct (write c (_serial s)) as [p' |] eqn:Hc; [| discriminate].
    unfold bind. rewrite (serial_write_ok c s p' Hc).
    rewrite (IH (with_serial p' [EvWrite c] s) p Hw).
    now rewrite with_serial_twice.
Qed.

(** A refused write inside the loop surfaces as "Lost connection"; the
    units written so far stay written and no setting changes. *)
Lemma for_each_write_refused (units : list string) :
  forall s : obj,
    write_all units (_serial s) = None ->
    exists s',
      for_each units serial_write s = (Raise SerialException, s') /\
      same_settings s s'.
Proof.
  induction units as [| c rest IH]; intros s Hw; simpl in *.
  - discriminate.
  - unfold bind.
    destruct (write c (_serial s)) as [p' |] eqn:Hc.
    + rewrite (serial_write_ok c s p' Hc).
      destruct (IH (with_serial p' [EvWrite c] s) Hw) as (s' & E & F).
      exists s'. split; [exact E | exact F].
    + rewrite (serial_write_refused c s Hc).
      exists s. split; [reflexivity | repeat split].
Qed.

(** [_send_command] without readout: the units are written and nothing is
    read. *)
Lemma send_command_no_readout (cmd : command) (bc : option string)
    (s : obj) (p : port) :
  write_all (as_list cmd) (_serial s) = Some p ->
  _send_command cmd false bc s =
    (Ret tt, with_serial p (map EvWrite (as_list cmd)) s).
Proof.
  intros Hw. unfold _send_command, bind, try_except.
  now rewrite (for_each_write_ok _ s p Hw).
Qed.

Lemma send_command_lost (cmd : command) (readout : bool)
    (bc : option string) (s : obj) :
  write_all (as_list cmd) (_serial s) = None ->
  exists s',
    _send_command cmd readout bc s = (Raise (Tellie ConnectionLost), s') /\
    same_settings s s'.
Proof.
  intros Hw. unfold _send_command, bind, try_except.
  destruct (for_each_write_refused _ s Hw) as (s' & E & F).
  rewrite E. now exists s'.
Qed.

(** [_send_command] with readout and a matching echo. *)
Lemma send_command_echo_ok (cmd : command) (bc : option string)
    (s : obj) (p1 p2 : port) :
  let expected := echo_for (as_list cmd) bc in
  write_all (as_list cmd) (_serial s) = Some p1 ->
  read (String.length expected) p1 = Some (expected, p2) ->
  _send_command cmd true bc s =
    (Ret tt,
     with_serial p2
       (map EvWrite (as_list cmd)
        ++ [EvRead (String.length expected) expected]) s).
Proof.
  intros expected Hw Hr. unfold _send_command, bind, try_except.
  rewrite (for_each_write_ok _ s p1 Hw).
  fold expected.
  rewrite (serial_read_eq _ (with_serial p1 _ s) expected p2) by exact Hr.
  rewrite String.eqb_refl. simpl.
  unfold ret. now rewrite with_serial_twice.
Qed.

(** ** Echo mismatch *)


(** When the echo read fails, the library's exception comes out and no
    setting changes. *)
Lemma send_command_echo_read_fails (cmd : command) (bc : option string)
    (s : obj) (p1 : port) :
  let expected := echo_for (as_list cmd) bc in
  write_all (as_list cmd) (_serial s) = Some p1 ->
  read (String.length expected) p1 = None ->
  _send_command cmd true bc s =
    (Raise SerialException, with_serial p1 (map EvWrite (as_list cmd)) s).
Proof.
  intros expected Hw Hr. unfold _send_command, bind, try_except.
  rewrite (for_each_write_ok _ s p1 Hw).
  fold expected.
  now rewrite (serial_read_failed _ (with_serial p1 _ s)) by exact Hr.
Qed.

(** With readout and any other echo the call raises, whatever the port does
    during the recovery, and no setting changes. *)
Lemma send_command_mismatch_raises (cmd : command) (bc : option string)
    (s : obj) (p1 p2 : port) (got : string) :
  let expected := echo_for (as_list cmd) bc in
  write_all (as_list cmd) (_serial s) = Some p1 ->
  read (String.length expected) p1 = Some (got, p2) ->
  got <> expected ->
  exists e s',
    _send_command cmd true bc s = (Raise e, s') /\ same_settings s s'.
Proof.
  intros expected Hw Hr Hne.
  apply String.eqb_neq in Hne.
  unfold _send_command, bind, try_except.
  rewrite (for_each_write_ok _ s p1 Hw).
  fold expected.
  rewrite (serial_read_eq _ (with_serial p1 _ s) got p2) by exact Hr.
  rewrite Hne. cbn [negb].
  unfold sleep, assign, raise. cbv beta iota.
  destruct (read 100 p2) as [[rem p3] |] eqn:Hrem.
  - rewrite (serial_read_eq 100 _ rem p3) by exact Hrem.
    destruct (write "X" p3) as [p4 |] eqn:HX.
    + rewrite (serial_write_ok "X" _ p4) by exact HX. cbv beta iota.
      destruct (write "C" p4) as [p5 |] eqn:HC.
      * rewrite (serial_write_ok "C" _ p5) by exact HC. cbv beta iota.
        destruct (read 100 p5) as [[rest p6] |] eqn:Hrest.
        -- rewrite (serial_read_eq 100 _ rest p6) by exact Hrest.
           do 2 eexists; split; [reflexivity | repeat split].
        -- rewrite (serial_read_failed 100) by exact Hrest.
           do 2 eexists; split; [reflexivity | repeat split].
      * rewrite (serial_write_refused "C") by exact HC.
        do 2 eexists; split; [reflexivity | repeat split].
    + rewrite (serial_write_refused "X") by exact HX.
      do 2 eexists; split; [reflexivity | repeat split].
  - rewrite (serial_read_failed 100) by exact Hrem.
    do 2 eexists; split; [reflexivity | repeat split].
Qed.

(** The two ways a verified send can end. *)
Lemma send_command_readout_cases (cmd : command) (bc : option string)
    (s : obj) :
  let expected := echo_for (as_list cmd) bc in
  (exists p1 p2,
      write_all (as_list cmd) (_serial s) = Some p1 /\
      read (String.length expected) p1 = Some (expected, p2) /\
      _send_command cmd true bc s =
        (Ret tt,
         with_serial p2
           (map EvWrite (as_list cmd)
            ++ [EvRead (String.length expected) expected]) s))
  \/ (exists e s',
         _send_command cmd true bc s = (Raise e, s') /\ same_settings s s').
Proof.
  intros expected.
  destruct (write_all (as_list cmd) (_serial s)) as [p1 |] eqn:Hw.
  - destruct (read (String.length expected) p1) as [[got p2] |] eqn:Hr.
    + destruct (String.eqb_spec got expected) as [-> | Hne].
      * left. exists p1, p2. repeat split; try assumption.
        now apply send_command_echo_ok with (p1 := p1).
      * right. now apply send_command_mismatch_raises with p1 p2 got.
    + right.
      exists SerialException, (with_serial p1 (map EvWrite (as_list cmd)) s).
      split; [| repeat split].
      apply send_command_echo_read_fails; assumption.
  - right. destruct (send_command_lost cmd true bc s Hw) as (s' & E & F).
    now exists (Tellie ConnectionLost), s'.
Qed.

(** ** Fire *)

Lemma check_ready_ok (s : obj) (h n : Z) (d : Q) :
  _current_ph s = Some h -> _current_pn s = Some n ->
  _current_pd s = Some d ->
  check_ready s = (Ret tt, s).
Proof.
  intros Hh Hn Hd. unfold check_ready, bind, attr.
  now rewrite Hh, Hn, Hd.
Qed.





(** The float product against the exact one, for a pulse number and a
    pulse delay that the setters accept: when the exact product is 500 or
    more so is the float product, and the float product is below 500 only
    when the exact one is.  (The converse fails: 3 times the double
    [500/3.] is below 500 and rounds to 500.0.) *)
Lemma train_product_against_exact (n : Z) (d : Q) :
  0 <= n <= _max_pulse_number -> (0 <= d)%Q -> (d <= _max_pulse_delay)%Q ->
  ((500 <= inject_Z n * d)%Q -> (500 <= train_product n d)%Q) /\
  ((train_product n d < 500)%Q -> (inject_Z n * d < 500)%Q).
Proof.
  unfold _max_pulse_number. intros Hn Hd0 Hd1.
  assert (E : (train_product n d == round_double (inject_Z n * d))%Q).
  { unfold train_product, fmul. apply round_double_comp.
    apply Qmult_comp; [apply py_float_exact; lia | reflexivity]. }
  assert (Hup : (500 <= inject_Z n * d)%Q -> (500 <= train_product n d)%Q).
  { intros H500. rewrite E.
    apply (round_double_ge_int _ 500);
      [eapply Qlt_le_trans; [| exact H500]; reflexivity | exact H500 |].
    apply Qle_lt_trans with (inject_Z 65025 * _max_pulse_delay)%Q;
      [| vm_compute; reflexivity].
    apply Qle_trans with (inject_Z 65025 * d)%Q.
    - apply Qmult_le_compat_r; [| exact Hd0]. rewrite <- Zle_Qle. lia.
    - apply Qmult_le_l; [reflexivity | exact Hd1]. }
  split; [exact Hup |].
  intros Hlt. apply Qnot_le_lt. intros Hge.
  exact (Qlt_not_le _ _ Hlt (Hup Hge)).
Qed.


(** ** Fire continuously and in sequence *)

(** [fire_continuous] makes the re-entry test of [fire]: while firing, one
    read of up to 100 bytes, and "already in firing mode" unless the end
    marker is among them, before anything is written. *)
Lemma fire_continuous_refuses_reentry (s : obj) (buf : string) (p : port) :
  _firing s = true ->
  read 100 (_serial s) = Some (buf, p) ->
  str_in _buffer_end_sequence buf = false ->
  fire_continuous s =
    (Raise (Tellie AlreadyFiring), with_serial p [EvRead 100 buf] s).
Proof.
  intros Hf Hr Hk. unfold fire_continuous. unfold bind at 1, attr at 1.
  rewrite Hf. unfold bind at 1. unfold read_buffer.
  unfold bind at 1. rewrite (serial_read_eq 100 s buf p Hr).
  now rewrite Hk.
Qed.

(** [fire_sequence] makes no such test: with the three settings made and
    the write accepted it returns, whatever the firing flag, having read
    nothing. *)
Lemma fire_sequence_always_sends (while_fire : bool) (s : obj)
    (h n : Z) (d : Q) (p : port) :
  _current_ph s = Some h -> _current_pn s = Some n ->
  _current_pd s = Some d ->
  write _cmd_fire_series (_serial s) = Some p ->
  fire_sequence while_fire s =
    (Ret tt,
     with_force_setting false
       (with_firing true (with_serial p [EvWrite _cmd_fire_series] s))).
Proof.
  intros Hh Hn Hd Hw. unfold fire_sequence. unfold bind at 1.
  rewrite (check_ready_ok s h n d Hh Hn Hd).
  unfold bind at 1.
  rewrite (send_command_no_readout (Str _cmd_fire_series) None s p)
    by (apply write_all_one; exact Hw).
  reflexivity.
Qed.

(** ** Stop *)

Lemma stop_lost_connection (s : obj) :
  write "X" (_serial s) = None ->
  stop s = (Raise (Tellie ConnectionLost), s).
Proof.
  intros Hw. unfold stop, _send_command, try_except.
  cbn [as_list for_each]. unfold bind.
  now rewrite (serial_write_refused _cmd_stop s Hw).
Qed.

(** C9, amended: [stop] tests nothing of the session state; it writes "X"
    with no echo read and then reads up to 100 bytes once.  When the port
    accepts the write and returns the read, [stop] returns the bytes read,
    whatever the firing flag was, and leaves the firing flag false and
    every other setting as it was.  When the port refuses the write it
    raises "Lost connection" and the object is unchanged.  When the read
    fails the library's exception comes out: "X" has been written and
    the firing flag is as it was. *)
Theorem stop_forces_idle_unless_the_port_fails (s : obj) :
  (forall (p1 p2 : port) (got : string),
     write "X" (_serial s) = Some p1 ->
     read 100 p1 = Some (got, p2) ->
     exists s',
       stop s = (Ret got, s') /\
       _firing s' = false /\
       wire s' = wire s ++ [EvWrite "X"; EvRead 100 got] /\
       _serial s' = p2 /\
       caches s' = caches s /\
       _force_setting s' = _force_setting s /\
       _channel s' = _channel s) /\
  (write "X" (_serial s) = None ->
   stop s = (Raise (Tellie ConnectionLost), s)) /\
  (forall p1 : port,
     write "X" (_serial s) = Some p1 ->
     read 100 p1 = None ->
     exists s',
       stop s = (Raise SerialException, s') /\
       _firing s' = _firing s /\
       wire s' = wire s ++ [EvWrite "X"] /\
       _serial s' = p1 /\
       same_settings s s').
Proof.
  split; [| split; [apply stop_lost_connection |]].
  - intros p1 p2 got Hw Hr.
    unfold stop. unfold bind at 1.
    rewrite (send_command_no_readout (Str _cmd_stop) None s p1)
      by (apply write_all_one; exact Hw).
    unfold bind at 1.
    rewrite (serial_read_eq 100 _ got p2) by exact Hr.
    unfold bind, assign, ret.
    eexists. split; [reflexivity |].
    repeat split. simpl. now rewrite <- app_assoc.
  - intros p1 Hw Hr.
    unfold stop. unfold bind at 1.
    rewrite (send_command_no_readout (Str _cmd_stop) None s p1)
      by (apply write_all_one; exact Hw).
    unfold bind at 1.
    rewrite (serial_read_failed 100) by exact Hr.
    eexists. split; [reflexivity |]. repeat split.
Qed.

(** ** The setters *)

Variable hook : command -> option string -> M port unit.

Lemma set_core_eq (k : setting) (s : obj) :
  is_core k = true ->
  set_setting hook k s =
    (if cached k s && negb (_force_setting s) then ret tt
     else bind (lift (encode k))
            (fun cb =>
               bind (_send_setting_command (List (fst cb)) (Some (snd cb))
                       false)
                    (fun _ => assign (store k)))) s.
Proof. destruct k; intros Hk; try discriminate Hk; reflexivity. Qed.

Lemma set_cached_noop (k : setting) (s : obj) :
  cached k s = true -> _force_setting s = false ->
  set_setting hook k s = (Ret tt, s).
Proof.
  intros Hc Hf.
  destruct k as [par | par | par | par | par];
    try (rewrite set_core_eq by reflexivity; now rewrite Hc, Hf).
  unfold cached in Hc. unfold set_setting, set_fibre_delay.
  unfold bind at 1, attr at 1.
  destruct (_channel s) as [| ch [| ? ?]] eqn:Hch; try discriminate Hc.
  cbn [length Nat.eqb negb].
  unfold bind at 1, attr at 1. unfold bind at 1. unfold lift at 1.
  cbn [getitem py_index length Z.of_nat]. cbn.
  destruct (_current_fd s) as [l |]; [| discriminate Hc].
  unfold bind at 1, lift at 1.
  destruct (getitem l ch) as [cur | e]; [| discriminate Hc].
  unfold bind at 1, attr at 1. now rewrite Hc, Hf.
Qed.

Lemma same_settings_refl (s : obj) : same_settings s s.
Proof. repeat split. Qed.

Lemma same_settings_trans (s1 s2 s3 : obj) :
  same_settings s1 s2 -> same_settings s2 s3 -> same_settings s1 s3.
Proof.
  intros (A1 & B1 & C1 & D1) (A2 & B2 & C2 & D2).
  repeat split; congruence.
Qed.

(** Whatever [_send_command] does, it touches the port and the wire record
    only. *)
Lemma send_command_frame (cmd : command) (readout : bool)
    (bc : option string) (s s' : obj) (r : outcome unit) :
  _send_command cmd readout bc s = (r, s') -> same_settings s s'.
Proof.
  intros E. destruct readout.
  - destruct (send_command_readout_cases cmd bc s)
      as [(p1 & p2 & _ & _ & E') | (e & s1 & E' & F)];
      rewrite E' in E; injection E as _ <-; [repeat split | exact F].
  - destruct (write_all (as_list cmd) (_serial s)) as [p |] eqn:Hw.
    + rewrite (send_command_no_readout cmd bc s p Hw) in E.
      injection E as _ <-. repeat split.
    + destruct (send_command_lost cmd false bc s Hw) as (s1 & E' & F).
      rewrite E' in E. now injection E as _ <-.
Qed.

Lemma check_clear_buffer_frame (s s' : obj) (r : outcome unit) :
  _check_clear_buffer s = (r, s') -> same_settings s s'.
Proof.
  unfold _check_clear_buffer, bind, serial_read.
  destruct (read 100 (_serial s)) as [[got p] |];
    [destruct (negb (got =? "")%string) |]; intros E;
    injection E as _ <-; repeat split.
Qed.

Lemma send_setting_command_frame (cmd : command) (bc : option string)
    (while_fire : bool) (s s' : obj) (r : outcome unit) :
  _send_setting_command cmd bc while_fire s = (r, s') -> same_settings s s'.
Proof.
  unfold _send_setting_command. unfold bind at 1, attr at 1.
  destruct (_firing s).
  - destruct while_fire; cbn [negb].
    + apply send_command_frame.
    + intros E. injection E as _ <-. apply same_settings_refl.
  - unfold bind. intros E.
    destruct (_check_clear_buffer s) as [[[] | e] s1] eqn:E1.
    + apply same_settings_trans with s1.
      * now apply check_clear_buffer_frame with (r := Ret tt).
      * now apply send_command_frame in E.
    + injection E as _ <-.
      now apply check_clear_buffer_frame with (r := Raise e).
Qed.

Lemma send_setting_command_firing (cmd : command) (bc : option string)
    (s : obj) :
  _firing s = true ->
  _send_setting_command cmd bc false s = (Raise (Tellie IllegalWhileFiring), s).
Proof.
  intros Hf. unfold _send_setting_command, bind, attr. now rewrite Hf.
Qed.

(** C1, amended: for the pulse height, pulse number, pulse delay and
    trigger delay setters, while the firing flag is true.  A call whose
    value equals the cached one with the force flag false returns without
    raising and does nothing.  Any other call raises, with nothing written
    or read and the object unchanged: "Cannot run command, in firing mode"
    when the encoder accepts the value, and the encoder's own exception
    when it does not.  The setters take no override argument. *)
Theorem set_while_firing (k : setting) (s : obj) :
  is_core k = true ->
  _firing s = true ->
  (cached k s && negb (_force_setting s) = true ->
   set_setting hook k s = (Ret tt, s))
  /\
  (cached k s && negb (_force_setting s) = false ->
   (forall cb, encode k = Ret cb ->
               set_setting hook k s = (Raise (Tellie IllegalWhileFiring), s))
   /\
   (forall e, encode k = Raise e -> set_setting hook k s = (Raise e, s))).
Proof.
  intros Hk Hf. rewrite (set_core_eq k s Hk).
  split; intros Hskip; rewrite Hskip; [reflexivity |].
  split.
  - intros cb Hcb. unfold bind at 1, lift. rewrite Hcb.
    unfold bind. now rewrite send_setting_command_firing.
  - intros e He. unfold bind, lift. now rewrite He.
Qed.

(** C10: a setter that raises has not written its cache.  For the four
    setters of this module every cached setting is as it was before the
    call, whatever raised (the encoder, the firing test, the buffer test
    or the send).  [set_fibre_delay] either raised before sending, leaving
    the object as it was, or hands back the object as the chip class's
    channel command left it: its own assignment did not run. *)
Theorem raising_set_keeps_cache (k : setting) (s s' : obj) (e : exn) :
  set_setting hook k s = (Raise e, s') ->
  (is_core k = true -> caches s' = caches s)
  /\
  (is_core k = false ->
   s' = s \/
   exists cb r,
     encode k = Ret cb /\ hook (List (fst cb)) (Some (snd cb)) s = (r, s')).
Proof.
  intros E. split; intros Hk.
  - rewrite (set_core_eq k s Hk) in E.
    destruct (cached k s && negb (_force_setting s)); [discriminate E |].
    unfold bind at 1, lift in E.
    destruct (encode k) as [cb | e'].
    + unfold bind in E.
      destruct (_send_setting_command _ _ _ s) as [[[] | e'] s1] eqn:E1;
        [discriminate E |].
      injection E as _ <-.
      now destruct (send_setting_command_frame _ _ _ _ _ _ E1).
    + now injection E as _ <-.
  - destruct k as [par | par | par | par | par]; try discriminate Hk.
    unfold set_setting, set_fibre_delay in E. cbn [encode].
    unfold bind at 1, attr at 1 in E.
    destruct (negb (length (_channel s) =? 1)%nat).
    { left. now injection E as _ <-. }
    unfold bind at 1, attr at 1 in E. unfold bind at 1, lift at 1 in E.
    destruct (getitem (_channel s) 0) as [ch | e0];
      [| left; now injection E as _ <-].
    unfold bind at 1 in E.
    destruct (_current_fd s) as [l |];
      [| left; now injection E as _ <-].
    unfold lift at 1 in E.
    destruct (getitem l ch) as [cur | e0];
      [| left; now injection E as _ <-].
    unfold bind at 1, attr at 1 in E.
    destruct (eq_cached Qeq_bool par cur && negb (_force_setting s));
      [discriminate E |].
    unfold bind at 1, lift at 1 in E.
    destruct (command_fibre_delay par) as [cb | e0];
      [| left; now injection E as _ <-].
    right. exists cb. unfold bind at 1 in E.
    destruct (hook (List (fst cb)) (Some (snd cb)) s) as [[[] | e0] s1].
    + exists (Ret tt). split; [reflexivity |]. f_equal.
      unfold bind at 1, attr at 1 in E. unfold bind at 1, attr at 1 in E.
      unfold bind at 1, lift at 1 in E.
      destruct (getitem (_channel s1) 0) as [ch1 | e1];
        [| now injection E as _ <-].
      destruct (_current_fd s1) as [l1 |]; [| now injection E as _ <-].
      unfold bind, lift in E.
      destruct (setitem l1 ch1 (Some par)) as [l' | e1];
        [discriminate E | now injection E as _ <-].
    + exists (Raise e0). split; [reflexivity |]. now injection E as _ <-.
Qed.

(** Subscripts of a list that has just been assigned at the same place. *)
Lemma py_index_lt {A} (l : list A) (i : Z) (n : nat) :
  py_index l i = Some n -> (n < length l)%nat.
Proof.
  unfold py_index. intros E.
  destruct ((0 <=? i) && (i <? Z.of_nat (length l))) eqn:E1.
  - injection E as <-. apply andb_prop in E1 as [? ?]. lia.
  - destruct ((- Z.of_nat (length l) <=? i) && (i <? 0)) eqn:E2;
      [| discriminate E].
    injection E as <-. apply andb_prop in E2 as [? ?]. lia.
Qed.

Lemma replace_nth_length {A} (l : list A) (n : nat) (v : A) :
  length (replace_nth l n v) = length l.
Proof.
  revert n. induction l as [| x l IH]; intros [| n]; simpl; auto.
Qed.

Lemma nth_error_replace_nth {A} (l : list A) (n : nat) (v : A) :
  (n < length l)%nat -> nth_error (replace_nth l n v) n = Some v.
Proof.
  revert n. induction l as [| x l IH]; intros [| n] Hn; simpl in *;
    try lia; [reflexivity | apply IH; lia].
Qed.

Lemma getitem_setitem {A} (l l' : list A) (i : Z) (v : A) :
  setitem l i v = Ret l' -> getitem l' i = Ret v.
Proof.
  unfold setitem, getitem. intros E.
  destruct (py_index l i) as [n |] eqn:En; [| discriminate E].
  injection E as <-.
  assert (En' : py_index (replace_nth l n v) i = Some n).
  { unfold py_index in *. now rewrite replace_nth_length. }
  rewrite En'. rewrite nth_error_replace_nth; [reflexivity |].
  now apply py_index_lt with (i := i).
Qed.

Lemma Qeq_bool_same (x : Q) : Qeq_bool x x = true.
Proof. apply Qeq_bool_iff. reflexivity. Qed.

(** After a setter has returned, its value is the cached one. *)
Lemma cached_after_set (k : setting) (s s1 : obj) :
  set_setting hook k s = (Ret tt, s1) ->
  (is_core k = false -> length (_channel s1) = 1%nat) ->
  _force_setting s1 = false ->
  cached k s1 = true.
Proof.
  intros E Hch Hforce.
  destruct (is_core k) eqn:Hk.
  - rewrite (set_core_eq k s Hk) in E.
    destruct (cached k s && negb (_force_setting s)) eqn:Hskip.
    + injection E as <-. now apply andb_prop in Hskip.
    + unfold bind at 1, lift in E.
      destruct (encode k) as [cb | e']; [| discriminate E].
      unfold bind, assign in E.
      destruct (_send_setting_command _ _ _ s) as [[[] | e'] s2];
        [| discriminate E].
      injection E as <-.
      destruct k as [par | par | par | par | par]; try discriminate Hk;
        cbn; first [apply Z.eqb_refl | apply Qeq_bool_same].
  - specialize (Hch eq_refl).
    destruct k as [par | par | par | par | par]; try discriminate Hk.
    unfold set_setting, set_fibre_delay in E.
    unfold bind at 1, attr at 1 in E.
    destruct (negb (length (_channel s) =? 1)%nat) eqn:Hlen;
      [discriminate E |].
    unfold bind at 1, attr at 1 in E. unfold bind at 1, lift at 1 in E.
    destruct (getitem (_channel s) 0) as [ch | e0] eqn:Hg0;
      [| discriminate E].
    unfold bind at 1 in E.
    destruct (_current_fd s) as [l |] eqn:Hfd; [| discriminate E].
    unfold lift at 1 in E.
    destruct (getitem l ch) as [cur | e0] eqn:Hg; [| discriminate E].
    unfold bind at 1, attr at 1 in E.
    destruct (eq_cached Qeq_bool par cur && negb (_force_setting s))
      eqn:Hskip.
    + injection E as <-. unfold cached.
      destruct (_channel s) as [| c [| ? ?]]; try discriminate Hch.
      injection Hg0 as ->. rewrite Hfd, Hg.
      now apply andb_prop in Hskip.
    + unfold bind at 1, lift at 1 in E.
      destruct (command_fibre_delay par) as [cb | e0]; [| discriminate E].
      unfold bind at 1 in E.
      destruct (hook (List (fst cb)) (Some (snd cb)) s) as [[[] | e0] s2];
        [| discriminate E].
      unfold bind at 1, attr at 1 in E. unfold bind at 1, attr at 1 in E.
      unfold bind at 1, lift at 1 in E.
      destruct (getitem (_channel s2) 0) as [ch1 | e1] eqn:Hg1;
        [| discriminate E].
      destruct (_current_fd s2) as [l1 |]; [| discriminate E].
      unfold bind, lift, assign in E.
      destruct (setitem l1 ch1 (Some par)) as [l' | e1] eqn:Hset;
        [| discriminate E].
      injection E as <-. unfold cached. cbn in Hch |- *.
      destruct (_channel s2) as [| c [| ? ?]]; try discriminate Hch.
      injection Hg1 as ->.
      rewrite (getitem_setitem _ _ _ _ Hset). cbn.
      apply Qeq_bool_same.
Qed.

(** C8: when a setter has returned and the force flag is false, calling
    it again with the same value returns at once with the object exactly as
    it was: nothing is written or read, no cache and no flag changes.  For
    the fibre delay the channel selection still holds one channel ("context
    unchanged"). *)
Theorem set_same_value_again_does_nothing (k : setting) (s s1 : obj) :
  set_setting hook k s = (Ret tt, s1) ->
  _force_setting s1 = false ->
  (is_core k = false -> length (_channel s1) = 1%nat) ->
  set_setting hook k s1 = (Ret tt, s1).
Proof.
  intros E Hforce Hch.
  apply set_cached_noop; [| exact Hforce].
  now apply cached_after_set with s.
Qed.

End SessionProperties.

(** * Worked examples on the replay port *)

(** C1, as stated, fails: with the firing flag true and pulse height 100
    cached, [set_pulse_height(100)] returns without raising and leaves the
    object as it was. *)
Lemma set_cached_height_while_firing_returns :
  _firing Examples.busy = true /\
  _current_ph Examples.busy = Some 100 /\
  _force_setting Examples.busy = false /\
  set_pulse_height 100 Examples.busy = (Ret tt, Examples.busy) /\
  set_setting Replay.channel_command (PulseHeight 100) Examples.busy
    <> (Raise (Tellie IllegalWhileFiring), Examples.busy).
Proof. repeat split; discriminate. Qed.

Lemma set_while_firing_at_101 :
  set_setting Replay.channel_command (PulseHeight 101) Examples.busy =
    (Raise (Tellie IllegalWhileFiring), Examples.busy).
Proof.
  destruct (set_while_firing Replay.channel_command (PulseHeight 101)
              Examples.busy eq_refl eq_refl) as [_ Hraise].
  destruct (Hraise eq_refl) as [Haccepted _].
  eapply Haccepted. reflexivity.
Defined.


(** The product is the float one: three pulses [500/3.] ms apart have an
    exact product below 500 and the float product 500.0, and [fire] waits
    for the echo "g" alone and leaves the firing flag true. *)
Lemma fire_on_a_product_that_rounds_to_500 :
  is_double double_500_3 = true /\
  (inject_Z 3 * double_500_3 < 500)%Q /\
  (train_product 3 double_500_3 == 500)%Q /\
  exists s',
    fire false Examples.rounding_train = (Ret tt, s') /\
    _firing s' = true /\
    wire s' = [EvWrite "g"; EvRead 1 "g"].
Proof.
  split; [vm_compute; reflexivity |].
  split; [vm_compute; reflexivity |].
  split; [vm_compute; reflexivity |].
  eexists. split; [vm_compute; reflexivity |].
  split; reflexivity.
Qed.

(** C4: while firing with no end marker in the buffer, [fire] and
    [fire_continuous] read the buffer and raise "already in firing mode";
    [fire_sequence] reads nothing, writes the fire command and returns. *)
Theorem fire_sequence_skips_reentry_check :
  _firing Examples.busy = true /\
  (exists s', fire false Examples.busy = (Raise (Tellie AlreadyFiring), s')
              /\ wire s' = [EvRead 100 ""]) /\
  (exists s', fire_continuous Examples.busy =
                (Raise (Tellie AlreadyFiring), s')
              /\ wire s' = [EvRead 100 ""]) /\
  (exists s', fire_sequence false Examples.busy = (Ret tt, s')
              /\ wire s' = [EvWrite _cmd_fire_series]
              /\ _firing s' = true).
Proof.
  split; [reflexivity |].
  split; [| split]; eexists; (split; [reflexivity |]); repeat split.
Qed.



(** C8 on the pulse height. *)
Lemma set_height_twice_on_echoing_port :
  let s1 := snd (set_pulse_height 101 Examples.echoing_height) in
  set_setting Replay.channel_command (PulseHeight 101) Examples.echoing_height
    = (Ret tt, s1) /\
  wire s1 <> [] /\
  set_setting Replay.channel_command (PulseHeight 101) s1 = (Ret tt, s1).
Proof.
  split; [reflexivity |]. split; [discriminate |].
  apply (set_same_value_again_does_nothing Replay.channel_command
           (PulseHeight 101) Examples.echoing_height);
    [reflexivity | reflexivity | discriminate].
Defined.

(** C9, as stated, fails: with the link down [stop] raises "Lost
    connection" and the firing flag stays true. *)
Lemma stop_raises_when_unplugged :
  stop Examples.unplugged = (Raise (Tellie ConnectionLost), Examples.unplugged)
  /\ _firing Examples.unplugged = true.
Proof. split; reflexivity. Qed.

(** C9 on a session mid pulse train: on a port that answers, and on one
    that fails the read. *)
Lemma stop_forces_idle_when_busy :
  (exists s',
      stop Examples.busy = (Ret "", s') /\ _firing s' = false /\
      wire s' = [EvWrite "X"; EvRead 100 ""]) /\
  (exists s',
      stop Examples.deaf = (Raise SerialException, s') /\
      _firing s' = true /\ wire s' = [EvWrite "X"]).
Proof.
  split.
  - destruct (stop_forces_idle_unless_the_port_fails Examples.busy)
      as [Haccepted _].
    destruct (Haccepted (Replay.mkPort [""] 7) (Replay.mkPort [] 7) ""
                eq_refl eq_refl) as (s' & E & F & W & _).
    exists s'. repeat split; assumption.
  - destruct (stop_forces_idle_unless_the_port_fails Examples.deaf)
      as (_ & _ & Hdeaf).
    destruct (Hdeaf (Breaking.mkPort (Replay.mkPort [] 7) 0)
                eq_refl eq_refl) as (s' & E & F & W & _).
    exists s'. repeat split; assumption.
Defined.

(** C10 on a buffer that is not clear. *)
Lemma stale_buffer_keeps_cache :
  let r := set_setting Replay.channel_command (PulseHeight 101) Examples.stale in
  fst r = Raise (Tellie (BufferNotClear "K")) /\
  caches (snd r) = caches Examples.stale.
Proof.
  split; [reflexivity |].
  apply (raising_set_keeps_cache Replay.channel_command (PulseHeight 101)
           Examples.stale _ (Tellie (BufferNotClear "K")));
    reflexivity.
Defined.

(** * The rest of the module

    The methods and encoder behaviour that the properties above do not
    reach: [clear_settings] and [disable_external_trigger], the range
    tests and lookups of the encoders, and how the methods compose. *)

Section OtherMethods.

Context {port : Type} `{Serial port} `{Parameters}.

(** [clear_settings] also binds [_current_pw], an attribute that no method
    of the module reads and that has no field in the object. *)
Definition clear_settings : M port unit :=
  bind (assign (with_current_ph None)) (fun _ =>
  bind (assign (with_current_fd None)) (fun _ =>
  bind (assign (with_current_pn None)) (fun _ =>
  bind (assign (with_current_pd None)) (fun _ =>
  assign (with_current_td None))))).

Definition disable_external_trigger : M port unit :=
  _send_command (Str "B") true None.

(** [l <= i] with a list on the left and an int on the right.  Python 2
    orders values of different types by type, every number coming before
    every list: the test is false whatever the list and the int. *)
Definition list_le_int (l : list Z) (i : Z) : bool := false.

(** [read_pin] is called by [fire_single] and defined by no class of this
    module: it is the chip class's, and is taken as given, with the truth
    value of what it returns. *)
Variable pin : Type.
Variable truth : pin -> bool.
Variable read_pin : Z -> M port pin.

(** The polling that ends [fire_single]: [read_pin] is called on the
    first selected channel until it returns something true.  The loop has
    no bound of its own; here it runs for at most [fuel] calls and gives
    [None] when it is still polling after them. *)
Fixpoint poll_pin (fuel : nat) : M port (option pin) :=
  match fuel with
  | O => ret None
  | S fuel' =>
      bind (attr _channel) (fun channel =>
      bind (lift (getitem channel 0)) (fun ch =>
      bind (read_pin ch) (fun p =>
      if truth p then ret (Some p) else poll_pin fuel')))
  end.

(** The firing flag is set right after the send, before the polling. *)
Definition fire_single (fuel : nat) : M port (option pin) :=
  bind (attr _firing) (fun firing =>
  bind (if firing then
          bind (read_buffer 100) (fun buf =>
          if str_in _buffer_end_sequence buf then assign (with_firing false)
          else raise (Tellie AlreadyFiring))
        else ret tt) (fun _ =>
  bind (attr _channel) (fun channel =>
  let cmd :=
    if list_le_int channel 56 then _cmd_read_single_lower
    else _cmd_read_single_upper in
  bind (_send_command (Str cmd) false None) (fun _ =>
  bind (assign (with_firing true)) (fun _ =>
  poll_pin fuel))))).

(** The names [check_ready] reports, in its order. *)
Definition missing (s : SerialCommand port) : list string :=
  (if is_None (_current_ph s) then ["Pulse height"] else []) ++
  (if is_None (_current_pn s) then ["Pulse number"] else []) ++
  (if is_None (_current_pd s) then ["Pulse delay"] else []).

(** The public methods as one type of calls, each run for its effect. *)
Inductive operation : Type :=
| OpSet (k : setting)
| OpClearSettings
| OpCheckReady
| OpCheckFiring
| OpEnableExternalTrig (while_fire : bool)
| OpDisableExternalTrigger
| OpStop
| OpFire (while_fire : bool)
| OpFireSequence (while_fire : bool)
| OpFireContinuous
| OpTriggerSingle.

Definition run (hook : command -> option string -> M port unit)
    (op : operation) : M port unit :=
  match op with
  | OpSet k => set_setting hook k
  | OpClearSettings => clear_settings
  | OpCheckReady => check_ready
  | OpCheckFiring => bind check_firing (fun _ => ret tt)
  | OpEnableExternalTrig while_fire => enable_external_trig while_fire
  | OpDisableExternalTrigger => disable_external_trigger
  | OpStop => bind stop (fun _ => ret tt)
  | OpFire while_fire => fire while_fire
  | OpFireSequence while_fire => fire_sequence while_fire
  | OpFireContinuous => fire_continuous
  | OpTriggerSingle => trigger_single
  end.

(** The calls that start a pulse train. *)
Definition starts_train (op : operation) : bool :=
  match op with
  | OpFire _ | OpFireSequence _ | OpFireContinuous | OpTriggerSingle => true
  | _ => false
  end.

(** The calls that write a cache. *)
Definition writes_cache (op : operation) : bool :=
  match op with
  | OpSet _ | OpClearSettings => true
  | _ => false
  end.

End OtherMethods.

(** States for further worked examples. *)
Module MoreExamples.

Import Replay.

(** A new session: nothing set, nothing to read. *)
Definition fresh : SerialCommand port := new (mkPort [] 8).

(** Configured and idle, the port silent. *)
Definition idle : SerialCommand port := configured (mkPort [] 8) false.

(** Mid pulse train; the end marker has arrived in the buffer. *)
Definition finished : SerialCommand port :=
  configured (mkPort ["xK"] 8) true.

(** The link drops after one more write. *)
Definition dropping : SerialCommand port :=
  configured (mkPort [""] 1) false.

(** A garbled echo, and the link down by the time of the recovery. *)
Definition garbled_then_down : SerialCommand port :=
  new (mkPort ["zz"; "left"] 1).

(** One channel selected, the fibre delay cache not bound to a list. *)
Definition one_channel : SerialCommand port :=
  mkSerialCommand (mkPort [] 8) None None None None None false false [3] [].

End MoreExamples.

(** ** Encoders: ranges and payloads *)

(** X1: for every pulse width [w] in [0, 16383] the encoder returns the
    two units "Q"+high and "R"+low+"S" with the echo "QRS", and
    [high * 256 + low = w]. *)
Theorem pulse_width_split_is_lossless (w : Z) :
  0 <= w <= 16383 ->
  exists high low : ascii,
    command_pulse_width w =
      Ret ([String "Q" (String high ""); String "R" (String low "S")], "QRS")
    /\ ord high * 256 + ord low = w.
Proof.
  intros Hw.
  destruct (split_in_range w Hw) as [Hhi Hlo].
  exists (ascii_of_N (Z.to_N (Z.shiftr w 8))),
         (ascii_of_N (Z.to_N (Z.land w 255))).
  rewrite !ord_ascii by lia.
  split; [now rewrite command_pulse_width_ok | apply shiftr8_land255].
Qed.

Lemma pulse_width_split_is_lossless_at_16383 :
  exists high low : ascii,
    command_pulse_width 16383 =
      Ret ([String "Q" (String high ""); String "R" (String low "S")], "QRS")
    /\ ord high * 256 + ord low = 16383.
Proof. apply (pulse_width_split_is_lossless 16383). lia. Defined.

Lemma range_guard (par top : Z) :
  (par >? top) || (par <? 0) = negb ((0 <=? par) && (par <=? top)).
Proof.
  rewrite Z.gtb_ltb.
  destruct (Z.ltb_spec top par), (Z.ltb_spec par 0),
    (Z.leb_spec 0 par), (Z.leb_spec par top); simpl; try reflexivity; lia.
Qed.

(** X2: the pulse height, pulse width and trigger delay encoders return a
    command exactly on their closed range ([0, 16383], [0, 16383],
    [0, 1275]); on every other integer they raise their "Invalid ..."
    exception carrying the value, so they never raise anything else. *)
Theorem integer_encoders_accept_exactly_their_range (par : Z) :
  ((exists c, command_pulse_height par = Ret c) <-> 0 <= par <= 16383) /\
  (~ 0 <= par <= 16383 ->
   command_pulse_height par = Raise (Tellie (InvalidPulseHeight par))) /\
  ((exists c, command_pulse_width par = Ret c) <-> 0 <= par <= 16383) /\
  (~ 0 <= par <= 16383 ->
   command_pulse_width par = Raise (Tellie (InvalidPulseWidth par))) /\
  ((exists c, command_trigger_delay par = Ret c) <-> 0 <= par <= 1275) /\
  (~ 0 <= par <= 1275 ->
   command_trigger_delay par = Raise (Tellie (InvalidTriggerDelay par))).
Proof.
  assert (Hout : forall top, ~ 0 <= par <= top ->
                             (par >? top) || (par <? 0) = true).
  { intros top Hn. rewrite range_guard.
    destruct (Z.leb_spec 0 par), (Z.leb_spec par top); simpl;
      try reflexivity; lia. }
  assert (Hph : ~ 0 <= par <= 16383 ->
    command_pulse_height par = Raise (Tellie (InvalidPulseHeight par))).
  { intros Hn. unfold command_pulse_height, _max_pulse_height.
    now rewrite Hout. }
  assert (Hpw : ~ 0 <= par <= 16383 ->
    command_pulse_width par = Raise (Tellie (InvalidPulseWidth par))).
  { intros Hn. unfold command_pulse_width, _max_pulse_width.
    now rewrite Hout. }
  assert (Htd : ~ 0 <= par <= 1275 ->
    command_trigger_delay par = Raise (Tellie (InvalidTriggerDelay par))).
  { intros Hn. unfold command_trigger_delay, _max_trigger_delay.
    now rewrite Hout. }
  assert (Hiff : forall (f : Z -> outcome (list string * string)) top e,
             (0 <= par <= top -> exists c, f par = Ret c) ->
             (~ 0 <= par <= top -> f par = Raise e) ->
             ((exists c, f par = Ret c) <-> 0 <= par <= top)).
  { intros f top e Hin Hn. split; [| exact Hin].
    intros [c Hc].
    destruct (Z_le_dec 0 par) as [H0 | H0];
      [destruct (Z_le_dec par top) as [H1 | H1]; [lia |] |];
      rewrite Hn in Hc by lia; discriminate. }
  split; [| split; [exact Hph | split; [| split; [exact Hpw | split;
    [| exact Htd]]]]].
  - apply Hiff with (e := Tellie (InvalidPulseHeight par)); [| exact Hph].
    intros Hr. eexists. now apply command_pulse_height_ok.
  - apply Hiff with (e := Tellie (InvalidPulseWidth par)); [| exact Hpw].
    intros Hr. eexists. now apply command_pulse_width_ok.
  - apply Hiff with (e := Tellie (InvalidTriggerDelay par)); [| exact Htd].
    intros Hr. eexists. now apply command_trigger_delay_ok.
Qed.

(** X3: what [command_pulse_delay] does on every number.  Below 0 or
    above 256.02 it raises "Invalid pulse delay" with the value; on
    [256, 256.02] it raises ValueError; on [0, 256) it returns a command;
    so it returns a command exactly on [0, 256). *)
Theorem pulse_delay_outcomes (par : Q) :
  ((par < 0)%Q \/ (_max_pulse_delay < par)%Q ->
   command_pulse_delay par = Raise (Tellie (InvalidPulseDelay par))) /\
  ((256 <= par)%Q /\ (par <= _max_pulse_delay)%Q ->
   command_pulse_delay par = Raise ValueError) /\
  ((exists c, command_pulse_delay par = Ret c) <->
   (0 <= par)%Q /\ (par < 256)%Q).
Proof.
  assert (Hout : (par < 0)%Q \/ (_max_pulse_delay < par)%Q ->
    command_pulse_delay par = Raise (Tellie (InvalidPulseDelay par))).
  { intros [Hneg | Hbig]; unfold command_pulse_delay.
    - rewrite (Qltb_true _ _ Hneg). now rewrite orb_true_r.
    - now rewrite (Qgtb_true _ _ Hbig). }
  split; [exact Hout |].
  split; [intros [Hlo Hhi]; now apply pulse_delay_top_of_range_raises |].
  split.
  - intros [c Hc].
    destruct (Qlt_le_dec par 0) as [Hneg | H0].
    { rewrite Hout in Hc by (now left). discriminate. }
    destruct (Qlt_le_dec par 256) as [Hlt | Hge]; [now split |].
    destruct (Qlt_le_dec _max_pulse_delay par) as [Hbig | Hin].
    { rewrite Hout in Hc by (now right). discriminate. }
    rewrite pulse_delay_top_of_range_raises in Hc by assumption.
    discriminate.
  - intros [H0 H256]. eexists.
    now apply command_pulse_delay_below_256.
Qed.

(** X4: the trigger delay is sent in steps of 5 and rounded down without
    notice: on [0, 1275] the one payload byte [b] satisfies
    [5 * b <= par <= 5 * b + 4], and the command is the one of
    [5 * b]. *)
Theorem trigger_delay_rounds_down_to_a_step (par : Z) :
  0 <= par <= 1275 ->
  exists b : ascii,
    command_trigger_delay par = Ret ([String "d" (String b "")], "d") /\
    5 * ord b <= par <= 5 * ord b + 4 /\
    command_trigger_delay (5 * ord b) = command_trigger_delay par.
Proof.
  intros Hp.
  destruct (command_trigger_delay_ok par) as [E Hb]; [exact Hp |].
  exists (ascii_of_N (Z.to_N (par / 5))).
  rewrite ord_ascii by lia.
  pose proof (Z.div_mod par 5 ltac:(lia)) as Hdm.
  pose proof (Z.mod_pos_bound par 5 ltac:(lia)) as Hm.
  split; [exact E |]. split; [lia |].
  destruct (command_trigger_delay_ok (5 * (par / 5))) as [E' _];
    [unfold _max_trigger_delay; lia |].
  rewrite E', E.
  replace (5 * (par / 5) / 5) with (par / 5); [reflexivity |].
  rewrite Z.mul_comm. now rewrite Z.div_mul by lia.
Qed.

Lemma trigger_delay_rounds_down_to_a_step_at_7 :
  exists b : ascii,
    command_trigger_delay 7 = Ret ([String "d" (String b "")], "d") /\
    5 * ord b <= 7 <= 5 * ord b + 4 /\
    command_trigger_delay (5 * ord b) = command_trigger_delay 7.
Proof. apply (trigger_delay_rounds_down_to_a_step 7). lia. Defined.

Lemma chr_ret_inv (i : Z) (c : string) :
  chr i = Ret c -> 0 <= i < 256 /\ c = byte i.
Proof.
  unfold chr. destruct (Z.leb_spec 0 i), (Z.ltb_spec i 256); simpl;
    intros E; try discriminate E.
  injection E as <-. split; [lia | reflexivity].
Qed.

Section LookupEncoders.

Context `{Parameters}.

(** X5: the pulse number and fibre delay encoders send what the lookup
    tables return and nothing else.  A command comes back exactly when
    the value is in range ([0, 65025], [0, 127.5]), the table does not
    report an adjustment and the bytes it gives are in 0..255; the command
    is then "H"+hi, "G"+lo with echo "HG" (resp. "e"+setting with echo
    "e").  An adjusted value raises "Invalid pulse number" (resp. "Invalid
    delay"). *)
Theorem lookup_encoders_follow_the_tables :
  (forall (par : Z) c,
      command_pulse_number par = Ret c <->
      0 <= par <= 65025 /\
      exists actual hi lo,
        pulse_number par = (false, actual, hi, lo) /\
        0 <= hi < 256 /\ 0 <= lo < 256 /\
        c = ([_cmd_pn_hi +++ byte hi; _cmd_pn_lo +++ byte lo], "HG")) /\
  (forall (par : Z) actual hi lo,
      0 <= par <= 65025 ->
      pulse_number par = (true, actual, hi, lo) ->
      command_pulse_number par = Raise (Tellie (InvalidPulseNumber par))) /\
  (forall (par : Q) c,
      command_fibre_delay par = Ret c <->
      ((0 <= par)%Q /\ (par <= _max_fibre_delay)%Q) /\
      exists adj_delay setting,
        fibre_delay par = (false, adj_delay, setting) /\
        0 <= setting < 256 /\
        c = ([_cmd_fd +++ byte setting], "e")) /\
  (forall (par : Q) adj_delay setting,
      (0 <= par)%Q -> (par <= _max_fibre_delay)%Q ->
      fibre_delay par = (true, adj_delay, setting) ->
      command_fibre_delay par = Raise (Tellie (InvalidDelay par))).
Proof.
  split; [| split; [| split]].
  - intros par c. unfold command_pulse_number, _max_pulse_number.
    rewrite range_guard.
    destruct (Z.leb_spec 0 par), (Z.leb_spec par 65025); simpl;
      try (split; [discriminate | intros [? _]; lia]).
    destruct (pulse_number par) as [[[adjusted actual] hi] lo].
    destruct adjusted.
    { split; [discriminate |].
      intros (_ & a & h & l & E & _). discriminate E. }
    split.
    + intros E. split; [lia |]. exists actual, hi, lo.
      destruct (chr hi) as [chi | e] eqn:Ehi; [| discriminate E].
      destruct (chr lo) as [clo | e] eqn:Elo; [| discriminate E].
      apply chr_ret_inv in Ehi as [Hhi ->].
      apply chr_ret_inv in Elo as [Hlo ->].
      simpl in E. injection E as <-. repeat split; lia.
    + intros (_ & a & h & l & E & Hh & Hl & ->).
      injection E as <- <- <-.
      now rewrite (chr_byte hi Hh), (chr_byte lo Hl).
  - intros par actual hi lo Hp E. unfold command_pulse_number,
      _max_pulse_number. rewrite range_guard.
    destruct (Z.leb_spec 0 par), (Z.leb_spec par 65025); try lia.
    simpl. now rewrite E.
  - intros par c. unfold command_fibre_delay.
    destruct (Qlt_le_dec par 0) as [Hneg | H0].
    { rewrite (Qltb_true _ _ Hneg), orb_true_r.
      split; [discriminate | intros [[Hge _] _]].
      exfalso. exact (Qlt_not_le _ _ Hneg Hge). }
    destruct (Qlt_le_dec _max_fibre_delay par) as [Hbig | Hin].
    { rewrite (Qgtb_true _ _ Hbig).
      split; [discriminate | intros [[_ Hle] _]].
      exfalso. exact (Qlt_not_le _ _ Hbig Hle). }
    rewrite (Qgtb_false _ _ Hin), (Qltb_false _ _ H0). simpl.
    destruct (fibre_delay par) as [[adjusted adj_delay] setting].
    destruct adjusted.
    { split; [discriminate |].
      intros (_ & a & st & E & _). discriminate E. }
    split.
    + intros E. split; [now split |]. exists adj_delay, setting.
      destruct (chr setting) as [cs | e] eqn:Es; [| discriminate E].
      apply chr_ret_inv in Es as [Hs ->].
      simpl in E. injection E as <-. repeat split; lia.
    + intros (_ & a & st & E & Hs & ->).
      injection E as <- <-.
      now rewrite (chr_byte setting Hs).
  - intros par adj_delay setting H0 Hin E. unfold command_fibre_delay.
    rewrite (Qgtb_false _ _ Hin), (Qltb_false _ _ H0). simpl.
    now rewrite E.
Qed.

End LookupEncoders.

(** ** What a method leaves as it was *)

Section Frames.

Context {port : Type} `{Serial port} `{Parameters}.

Abbreviation obj := (SerialCommand port).

(** A relation between the object before and after that holds across no
    step, across steps taken one after the other, and across anything
    done on the port. *)
Class Frame (R : obj -> obj -> Prop) : Prop := {
  frame_refl : forall s, R s s;
  frame_trans : forall s1 s2 s3, R s1 s2 -> R s2 s3 -> R s1 s3;
  frame_io : forall p ev s, R s (with_serial p ev s)
}.

(** [m] keeps [R], however it ends. *)
Definition preserves (R : obj -> obj -> Prop) {A} (m : M port A) : Prop :=
  forall s r s', m s = (r, s') -> R s s'.

(** The cached settings and the channel selection are as before. *)
Definition same_caches (s s' : obj) : Prop :=
  caches s' = caches s /\ _channel s' = _channel s.

(** An idle session is still idle. *)
Definition stays_idle (s s' : obj) : Prop :=
  _firing s = false -> _firing s' = false.

(** Nothing but the cache of [k] (and the port) may differ. *)
Definition same_but (k : setting) (s s' : obj) : Prop :=
  _firing s' = _firing s /\ _force_setting s' = _force_setting s /\
  _channel s' = _channel s /\ caches (store k s') = caches (store k s).

#[local] Instance same_caches_frame : Frame same_caches.
Proof.
  split.
  - now split.
  - intros s1 s2 s3 [A1 B1] [A2 B2]. split; congruence.
  - now split.
Qed.

#[local] Instance stays_idle_frame : Frame stays_idle.
Proof.
  split.
  - now intros s Hs.
  - intros s1 s2 s3 H12 H23 Hs. auto.
  - now intros p ev s Hs.
Qed.

#[local] Instance same_settings_frame : Frame same_settings.
Proof.
  split.
  - apply same_settings_refl.
  - apply same_settings_trans.
  - now repeat split.
Qed.

#[local] Instance same_but_frame (k : setting) : Frame (same_but k).
Proof.
  split.
  - now repeat split.
  - intros s1 s2 s3 (A1 & B1 & C1 & D1) (A2 & B2 & C2 & D2).
    repeat split; congruence.
  - intros p ev s. destruct k; now repeat split.
Qed.

Section Rules.

Variable R : obj -> obj -> Prop.
Context `{Frame R}.

Lemma preserves_ret {A} (a : A) : preserves R (ret a).
Proof. intros s r s' E. injection E as _ <-. apply frame_refl. Qed.

Lemma preserves_raise {A} (e : exn) : preserves R (raise (A := A) e).
Proof. intros s r s' E. injection E as _ <-. apply frame_refl. Qed.

Lemma preserves_attr {A} (f : obj -> A) : preserves R (attr f).
Proof. intros s r s' E. injection E as _ <-. apply frame_refl. Qed.

Lemma preserves_lift {A} (o : outcome A) : preserves R (lift o).
Proof. intros s r s' E. injection E as _ <-. apply frame_refl. Qed.

Lemma preserves_assign (f : obj -> obj) :
  (forall s, R s (f s)) -> preserves R (assign f).
Proof. intros Hf s r s' E. injection E as _ <-. apply Hf. Qed.

Lemma preserves_bind {A B} (m : M port A) (k : A -> M port B) :
  preserves R m -> (forall a, preserves R (k a)) -> preserves R (bind m k).
Proof.
  intros Hm Hk s r s' E. unfold bind in E.
  destruct (m s) as [[a | e] s1] eqn:E1.
  - apply frame_trans with s1; [exact (Hm _ _ _ E1) | exact (Hk _ _ _ _ E)].
  - injection E as _ <-. exact (Hm _ _ _ E1).
Qed.

Lemma preserves_try_except {A} (m : M port A) (e : exn) :
  preserves R m -> preserves R (try_except m e).
Proof.
  intros Hm s r s' E. unfold try_except in E.
  destruct (m s) as [[a | e'] s1] eqn:E1; injection E as _ <-;
    exact (Hm _ _ _ E1).
Qed.

Lemma preserves_serial_write (c : string) : preserves R (serial_write c).
Proof.
  intros s r s' E. unfold serial_write in E.
  destruct (write c (_serial s)); injection E as _ <-;
    [apply frame_io | apply frame_refl].
Qed.

Lemma preserves_serial_read (n : nat) : preserves R (serial_read n).
Proof.
  intros s r s' E. unfold serial_read in E.
  destruct (read n (_serial s)) as [[got p] |]; injection E as _ <-;
    [apply frame_io | apply frame_refl].
Qed.

Lemma preserves_sleep (t : Q) : preserves R (sleep t).
Proof. apply preserves_assign. intros s. apply frame_io. Qed.

Lemma preserves_for_each (units : list string) :
  preserves R (for_each units serial_write).
Proof.
  induction units as [| c rest IH]; simpl.
  - apply preserves_ret.
  - apply preserves_bind; [apply preserves_serial_write | now intros _].
Qed.

End Rules.

End Frames.

#[global] Existing Instance same_caches_frame.
#[global] Existing Instance stays_idle_frame.
#[global] Existing Instance same_settings_frame.
#[global] Existing Instance same_but_frame.

(** One step of a frame proof: take the method apart along its binds and
    tests; an assignment is left for the relation at hand. *)
Ltac frame_step :=
  lazymatch goal with
  | |- Frame _ => typeclasses eauto
  | |- forall _, preserves _ _ => intros ?
  | |- preserves _ (bind _ _) => apply preserves_bind
  | |- preserves _ (if ?b then _ else _) => destruct b
  | |- preserves _ (match ?x with _ => _ end) => destruct x
  | |- preserves _ (ret _) => apply preserves_ret
  | |- preserves _ (raise _) => apply preserves_raise
  | |- preserves _ (attr _) => apply preserves_attr
  | |- preserves _ (lift _) => apply preserves_lift
  | |- preserves _ (serial_read _) => apply preserves_serial_read
  | |- preserves _ (read_buffer _) => apply preserves_serial_read
  | |- preserves _ (serial_write _) => apply preserves_serial_write
  | |- preserves _ (sleep _) => apply preserves_sleep
  | |- preserves _ (try_except _ _) => apply preserves_try_except
  | |- preserves _ (for_each _ serial_write) => apply preserves_for_each
  | |- preserves _ (assign _) =>
      apply preserves_assign; intros ?;
      first [solve [repeat split] | solve [intro; assumption]
            | solve [apply frame_io]]
  end.

Ltac frame := cbv zeta; repeat frame_step.

Section MethodFrames.

Context {port : Type} `{Serial port} `{Parameters}.

Abbreviation obj := (SerialCommand port).

Variable hook : command -> option string -> M port unit.

Section AnyFrame.

Variable R : obj -> obj -> Prop.
Context `{Frame port R}.

Lemma send_command_preserves (cmd : command) (readout : bool)
    (bc : option string) :
  preserves R (_send_command cmd readout bc).
Proof. unfold _send_command. frame. Qed.

Lemma check_clear_buffer_preserves : preserves R _check_clear_buffer.
Proof. unfold _check_clear_buffer. frame. Qed.

Lemma send_setting_command_preserves (cmd : command) (bc : option string)
    (while_fire : bool) :
  preserves R (_send_setting_command cmd bc while_fire).
Proof.
  unfold _send_setting_command. frame;
    first [apply send_command_preserves | apply check_clear_buffer_preserves].
Qed.

Lemma check_ready_preserves : preserves R check_ready.
Proof. unfold check_ready. frame. Qed.

Lemma enable_external_trig_preserves (while_fire : bool) :
  preserves R (enable_external_trig while_fire).
Proof.
  unfold enable_external_trig. frame. apply send_command_preserves.
Qed.

Lemma disable_external_trigger_preserves :
  preserves R disable_external_trigger.
Proof. apply send_command_preserves. Qed.

End AnyFrame.
End MethodFrames.

(** A frame proof through the methods that send. *)
Ltac method_frame :=
  cbv zeta;
  repeat first
    [ frame_step
    | apply send_command_preserves
    | apply check_clear_buffer_preserves
    | apply send_setting_command_preserves
    | apply check_ready_preserves ].

Section Invariants.

Context {port : Type} `{Serial port} `{Parameters}.

Abbreviation obj := (SerialCommand port).

Variable hook : command -> option string -> M port unit.

Lemma core_setter_preserves (R : obj -> obj -> Prop) `{Frame port R}
    (k : setting) :
  is_core k = true ->
  (forall s, R s (store k s)) ->
  preserves R (set_setting hook k).
Proof.
  intros Hk Hstore.
  destruct k as [par | par | par | par | par]; try discriminate Hk;
    cbn [set_setting];
    [unfold set_pulse_height | unfold set_pulse_number
    | unfold set_pulse_delay | unfold set_trigger_delay];
    cbv zeta;
    repeat first
      [ apply preserves_assign; exact Hstore
      | frame_step
      | apply send_setting_command_preserves ].
Qed.

(** X6: a setter of the module changes nothing of the object but its own
    cache, the port and the wire record, however it ends: the firing flag,
    the force flag, the channel selection and the four other caches are as
    before. *)
Theorem setter_touches_only_its_own_cache (k : setting) (s s' : obj)
    (r : outcome unit) :
  is_core k = true ->
  set_setting hook k s = (r, s') ->
  _firing s' = _firing s /\ _force_setting s' = _force_setting s /\
  _channel s' = _channel s /\ caches (store k s') = caches (store k s).
Proof.
  intros Hk E.
  apply (core_setter_preserves (same_but k) k Hk) in E; [exact E |].
  intros x. destruct k; now repeat split.
Qed.

Lemma check_firing_preserves (R : obj -> obj -> Prop) `{Frame port R} :
  (forall s, R s (with_firing false s)) ->
  preserves R check_firing.
Proof.
  intros Hlow. unfold check_firing.
  repeat first
    [ apply preserves_assign; exact Hlow
    | frame_step ].
Qed.

Lemma stop_preserves (R : obj -> obj -> Prop) `{Frame port R} :
  (forall s, R s (with_firing false s)) ->
  preserves R stop.
Proof.
  intros Hlow. unfold stop.
  repeat first
    [ apply preserves_assign; exact Hlow
    | frame_step
    | apply send_command_preserves ].
Qed.

Lemma clear_settings_preserves_idle :
  preserves (port := port) stays_idle clear_settings.
Proof. unfold clear_settings. method_frame. Qed.

Lemma check_ready_same (s s' : obj) (r : outcome unit) :
  check_ready s = (r, s') -> s' = s.
Proof.
  unfold check_ready, bind, attr.
  destruct (_current_ph s), (_current_pn s), (_current_pd s); simpl;
    intros E; now injection E as _ <-.
Qed.

(** The calls that start a train keep the caches and the channel. *)
Lemma train_preserves_caches (op : operation) :
  starts_train op = true -> preserves same_caches (run hook op).
Proof.
  intros Hop. destruct op; try discriminate Hop; cbn [run];
    [unfold fire | unfold fire_sequence | unfold fire_continuous
    | unfold trigger_single]; method_frame.
Qed.

(** X7: the cached settings and the channel selection change only through
    a setter or [clear_settings]: every other call (the readiness and
    firing checks, the external trigger switches, [stop] and the four
    firing calls) leaves them as they were, whether it returns or
    raises. *)
Theorem caches_change_only_through_setters (op : operation) (s s' : obj)
    (r : outcome unit) :
  writes_cache op = false ->
  run hook op s = (r, s') ->
  caches s' = caches s /\ _channel s' = _channel s.
Proof.
  intros Hop E.
  assert (Hp : preserves same_caches (run hook op)).
  { destruct op; try discriminate Hop;
      try (now apply train_preserves_caches); cbn [run].
    - apply check_ready_preserves. typeclasses eauto.
    - apply preserves_bind; [typeclasses eauto | | intros ?; apply preserves_ret; typeclasses eauto].
      apply check_firing_preserves; [typeclasses eauto | now split].
    - apply enable_external_trig_preserves. typeclasses eauto.
    - apply disable_external_trigger_preserves. typeclasses eauto.
    - apply preserves_bind; [typeclasses eauto | | intros ?; apply preserves_ret; typeclasses eauto].
      apply stop_preserves; [typeclasses eauto | now split]. }
  exact (Hp _ _ _ E).
Qed.

(** From the idle state a firing call that raises is still idle. *)
Lemma train_raise_stays_idle (op : operation) (s s' : obj) (e : exn) :
  starts_train op = true ->
  _firing s = false ->
  run hook op s = (Raise e, s') ->
  _firing s' = false.
Proof.
  intros Hop Hidle E.
  destruct op; try discriminate Hop; cbn [run] in E.
  - (* fire *)
    unfold fire in E. unfold bind at 1, attr at 1 in E.
    rewrite Hidle in E. cbn [andb] in E.
    unfold bind at 1, ret at 1 in E. unfold bind at 1 in E.
    destruct (check_ready s) as [[[] | e1] s1] eqn:E1;
      apply check_ready_same in E1; subst s1;
      [| now injection E as _ <-].
    unfold bind at 1, attr at 1 in E. unfold bind at 1, attr at 1 in E.
    destruct (_current_pn s) as [n |]; [| now injection E as _ <-].
    destruct (_current_pd s) as [d |]; [| now injection E as _ <-].
    unfold bind at 1 in E.
    destruct (Qltb (fmul (py_float n) d) 500).
    + destruct (_send_command _ _ _ s) as [[[] | e1] s1] eqn:E1;
        [discriminate E |].
      injection E as _ <-.
      apply send_command_frame in E1. destruct E1 as (_ & -> & _).
      exact Hidle.
    + unfold bind at 1 in E.
      destruct (_send_command _ _ _ s) as [[[] | e1] s1] eqn:E1;
        [discriminate E |].
      injection E as _ <-.
      apply send_command_frame in E1. destruct E1 as (_ & -> & _).
      exact Hidle.
  - (* fire_sequence *)
    unfold fire_sequence in E. unfold bind at 1 in E.
    destruct (check_ready s) as [[[] | e1] s1] eqn:E1;
      apply check_ready_same in E1; subst s1;
      [| now injection E as _ <-].
    unfold bind at 1 in E.
    destruct (_send_command _ _ _ s) as [[[] | e1] s1] eqn:E1;
      [discriminate E |].
    injection E as _ <-.
    apply send_command_frame in E1. destruct E1 as (_ & -> & _).
    exact Hidle.
  - (* fire_continuous *)
    unfold fire_continuous in E. unfold bind at 1, attr at 1 in E.
    rewrite Hidle in E. unfold bind at 1, ret at 1 in E.
    unfold bind at 1 in E.
    destruct (_send_command _ _ _ s) as [[[] | e1] s1] eqn:E1;
      [discriminate E |].
    injection E as _ <-.
    apply send_command_frame in E1. destruct E1 as (_ & -> & _).
    exact Hidle.
  - (* trigger_single *)
    unfold trigger_single in E. unfold bind at 1, attr at 1 in E.
    rewrite Hidle in E. unfold bind at 1, ret at 1 in E.
    unfold bind at 1 in E.
    destruct (_send_command _ _ _ s) as [[[] | e1] s1] eqn:E1;
      [discriminate E |].
    injection E as _ <-.
    apply send_command_frame in E1. destruct E1 as (_ & -> & _).
    exact Hidle.
Qed.

Variable pin : Type.
Variable truth : pin -> bool.
Variable read_pin : Z -> M port pin.

(** X8: on an idle session the firing flag is set only by a firing call.
    [fire], [fire_sequence], [fire_continuous] and [trigger_single] set it
    after their send, so only when they return: when one of them raises
    the session is still idle.  No setter of the module, check, switch,
    [stop] or [clear_settings] sets it.  [fire_single] sets it right after
    writing its command (always "m") and before the first call of
    [read_pin], so there the flag is set whatever the polling does: with
    no channel selected the subscript [self._channel[0]] raises IndexError
    and the flag stays true. *)
Theorem firing_flag_is_raised_only_by_a_firing_call (s : obj) :
  _firing s = false ->
  (forall (op : operation) (r : outcome unit) (s' : obj),
      (forall par, op <> OpSet (FibreDelay par)) ->
      run hook op s = (r, s') ->
      _firing s' = true ->
      starts_train op = true /\ r = Ret tt) /\
  (forall (fuel : nat) (p : port),
      write _cmd_read_single_upper (_serial s) = Some p ->
      fire_single pin truth read_pin fuel s =
        poll_pin pin truth read_pin fuel
          (with_firing true
             (with_serial p [EvWrite _cmd_read_single_upper] s))) /\
  (forall (fuel : nat) (p : port),
      write _cmd_read_single_upper (_serial s) = Some p ->
      _channel s = [] ->
      fire_single pin truth read_pin (S fuel) s =
        (Raise IndexError,
         with_firing true
           (with_serial p [EvWrite _cmd_read_single_upper] s))).
Proof.
  intros Hidle.
  assert (Hsingle : forall (fuel : nat) (p : port),
      write _cmd_read_single_upper (_serial s) = Some p ->
      fire_single pin truth read_pin fuel s =
        poll_pin pin truth read_pin fuel
          (with_firing true
             (with_serial p [EvWrite _cmd_read_single_upper] s))).
  { intros fuel p Hw. unfold fire_single. unfold bind at 1, attr at 1.
    rewrite Hidle. unfold bind at 1, ret at 1.
    unfold bind at 1, attr at 1. cbv zeta.
    change (list_le_int (_channel s) 56) with false. cbv iota.
    unfold bind at 1.
    rewrite (send_command_no_readout (Str _cmd_read_single_upper) None s p)
      by (apply write_all_one; exact Hw).
    reflexivity. }
  split; [| split; [exact Hsingle |]].
  - intros op r s' Hfd E Hfiring.
    destruct (starts_train op) eqn:Hop.
    + split; [reflexivity |].
      destruct r as [[] | e]; [reflexivity |].
      rewrite (train_raise_stays_idle op s s' e Hop Hidle E) in Hfiring.
      discriminate Hfiring.
    + exfalso.
      assert (Hp : preserves stays_idle (run hook op)).
      { destruct op; try discriminate Hop; cbn [run].
        - apply core_setter_preserves; [typeclasses eauto | | ].
          + destruct k; try reflexivity. now destruct (Hfd par).
          + intros x Hx. now destruct k.
        - apply clear_settings_preserves_idle.
        - apply check_ready_preserves. typeclasses eauto.
        - apply preserves_bind; [typeclasses eauto | | intros ?; apply preserves_ret; typeclasses eauto].
          apply check_firing_preserves; [typeclasses eauto | now intros x Hx].
        - apply enable_external_trig_preserves. typeclasses eauto.
        - apply disable_external_trigger_preserves. typeclasses eauto.
        - apply preserves_bind; [typeclasses eauto | | intros ?; apply preserves_ret; typeclasses eauto].
          apply stop_preserves; [typeclasses eauto | now intros x Hx]. }
      rewrite (Hp _ _ _ E Hidle) in Hfiring. discriminate Hfiring.
  - intros fuel p Hw Hch. rewrite (Hsingle (S fuel) p Hw).
    cbn [poll_pin]. unfold bind at 1, attr at 1.
    cbn [_channel with_firing with_serial]. rewrite Hch. reflexivity.
Qed.

End Invariants.

(** ** The end marker in a buffer read *)

(** [s] holds [sub] somewhere. *)
Definition contains (sub s : string) : Prop :=
  exists a c, s = a +++ sub +++ c.

Lemma prefix_spec (sub s : string) :
  prefix sub s = true <-> exists c, s = sub +++ c.
Proof.
  revert s. induction sub as [| x sub IH]; intros s.
  - split; [intros _; now exists s | intros _; now destruct s].
  - destruct s as [| y s]; simpl.
    + split; [discriminate | intros [c Hc]; discriminate Hc].
    + destruct (Ascii.ascii_dec x y) as [-> | Hxy].
      * rewrite IH. split; intros [c Hc]; exists c; congruence.
      * split; [discriminate |]. intros [c Hc]. congruence.
Qed.

Lemma str_in_spec (sub s : string) :
  str_in sub s = true <-> contains sub s.
Proof.
  unfold contains. induction s as [| y s IH].
  - cbn [str_in]. rewrite orb_false_r, prefix_spec.
    split.
    + intros [c Hc]. now exists "", c.
    + intros (a & c & E). destruct a as [| z a]; [now exists c |].
      discriminate E.
  - cbn [str_in]. rewrite orb_true_iff, prefix_spec, IH.
    split.
    + intros [[c Hc] | (a & c & E)].
      * now exists "", c.
      * exists (String y a), c. simpl. now rewrite E.
    + intros (a & c & E). destruct a as [| z a].
      * left. now exists c.
      * right. simpl in E. injection E as _ E. now exists a, c.
Qed.

Lemma str_in_false (sub s : string) :
  ~ contains sub s -> str_in sub s = false.
Proof.
  intros Hn. destruct (str_in sub s) eqn:E; [| reflexivity].
  apply str_in_spec in E. contradiction.
Qed.

Section Methods.

Context {port : Type} `{Serial port} `{Parameters}.

Abbreviation obj := (SerialCommand port).

Variable hook : command -> option string -> M port unit.

(** ** Readiness *)

Lemma check_ready_eq (s : obj) :
  check_ready s =
    (match missing s with
     | [] => Ret tt
     | _ => Raise (Tellie (IncompleteConfiguration (missing s)))
     end, s).
Proof.
  unfold check_ready, missing, bind, attr.
  now destruct (_current_ph s), (_current_pn s), (_current_pd s).
Qed.

(** X9: [check_ready] asks for the pulse height, the pulse number and the
    pulse delay and for nothing else (not the trigger delay, not the
    fibre delay).  With one of the three not set, [check_ready],
    [fire_sequence] and [fire] (from the idle state, or with the override)
    raise "Undefined options" naming the missing ones in that order, and
    the object is untouched: nothing is written or read. *)
Theorem firing_needs_the_three_settings (s : obj) :
  (missing s = [] <->
   exists h n d, _current_ph s = Some h /\ _current_pn s = Some n /\
                 _current_pd s = Some d) /\
  (missing s = [] -> check_ready s = (Ret tt, s)) /\
  (missing s <> [] ->
   let refused :=
     (Raise (Tellie (IncompleteConfiguration (missing s))), s) in
   check_ready s = refused /\
   (forall while_fire, fire_sequence while_fire s = refused) /\
   (forall while_fire,
       _firing s = false \/ while_fire = true ->
       fire while_fire s = refused)).
Proof.
  split; [| split].
  - unfold missing.
    destruct (_current_ph s) as [h |], (_current_pn s) as [n |],
      (_current_pd s) as [d |]; simpl;
      (split; [intros E; try discriminate E; now exists h, n, d
              | intros (h' & n' & d' & E1 & E2 & E3);
                try discriminate; reflexivity]).
  - intros E. rewrite check_ready_eq. now rewrite E.
  - intros Hm refused.
    assert (Hcr : check_ready s = refused).
    { rewrite check_ready_eq. unfold refused.
      destruct (missing s); [contradiction | reflexivity]. }
    split; [exact Hcr |]. split.
    + intros wf. unfold fire_sequence. unfold bind at 1. now rewrite Hcr.
    + intros wf Hwf. unfold fire. unfold bind at 1, attr at 1.
      replace (_firing s && negb wf) with false
        by (destruct Hwf as [-> | ->]; [reflexivity | now rewrite andb_false_r]).
      unfold bind at 1, ret at 1. unfold bind at 1. now rewrite Hcr.
Qed.

(** ** Polling the firing flag *)

(** X10: [check_firing] on an idle session returns false and does
    nothing.  While firing it reads the buffer once (up to 100 bytes) and
    writes nothing; when that read returns, it returns false and clears
    the firing flag exactly when the bytes read hold the end marker "K",
    and otherwise returns true with the flag still set.  The caches and
    the force flag are as before. *)
Theorem check_firing_polls_the_buffer_once (s : obj) :
  (_firing s = false -> check_firing s = (Ret false, s)) /\
  (_firing s = true ->
   forall buf p,
     read 100 (_serial s) = Some (buf, p) ->
     exists (b : bool) (s' : obj),
       check_firing s = (Ret b, s') /\
       _firing s' = b /\
       (b = false <-> contains _buffer_end_sequence buf) /\
       wire s' = wire s ++ [EvRead 100 buf] /\
       _serial s' = p /\
       caches s' = caches s /\
       _force_setting s' = _force_setting s).
Proof.
  split.
  - intros Hf. unfold check_firing, bind, attr. rewrite Hf.
    unfold ret. now rewrite Hf.
  - intros Hf buf p Hr. unfold check_firing. unfold bind at 1, attr at 1.
    rewrite Hf. unfold bind at 1. unfold read_buffer. unfold bind at 1.
    rewrite (serial_read_eq 100 s buf p Hr).
    destruct (str_in _buffer_end_sequence buf) eqn:Hk.
    + exists false. eexists. split; [reflexivity |].
      split; [reflexivity |]. split; [| now repeat split].
      split; [intros _; now apply str_in_spec | reflexivity].
    + exists true, (with_serial p [EvRead 100 buf] s).
      split; [unfold ret, attr; simpl; now rewrite Hf |].
      split; [exact Hf |]. split; [| now repeat split].
      split; [discriminate |].
      intros Hc. apply str_in_spec in Hc. congruence.
Qed.

(** ** Firing again while firing *)

(** X11: [fire] without the override on a firing session first reads the
    buffer once (up to 100 bytes).  Without the end marker "K" in the
    bytes that read returns it raises "already in firing mode"; nothing is
    written and the firing flag stays set.  With the marker it goes on
    exactly as [fire] does from the idle state reached by clearing the
    flag after that read. *)
Theorem fire_again_waits_for_the_end_marker (s : obj) (buf : string)
    (p : port) :
  _firing s = true ->
  read 100 (_serial s) = Some (buf, p) ->
  let s1 := with_serial p [EvRead 100 buf] s in
  (~ contains _buffer_end_sequence buf ->
   fire false s = (Raise (Tellie AlreadyFiring), s1)) /\
  (contains _buffer_end_sequence buf ->
   fire false s = fire false (with_firing false s1)).
Proof.
  intros Hf Hr s1. split; intros Hk.
  - apply str_in_false in Hk.
    unfold fire. unfold bind at 1, attr at 1. rewrite Hf. cbn [andb negb].
    unfold bind at 1. unfold read_buffer. unfold bind at 1.
    rewrite (serial_read_eq 100 s buf p Hr). now rewrite Hk.
  - apply str_in_spec in Hk.
    unfold fire. unfold bind at 1, attr at 1. rewrite Hf. cbn [andb negb].
    unfold bind at 1. unfold read_buffer. unfold bind at 1.
    rewrite (serial_read_eq 100 s buf p Hr). rewrite Hk.
    reflexivity.
Qed.

(** X12: [fire] with the override on a firing session makes no buffer
    read, and when it returns the firing flag is still true, also for a
    short train (pulse number times pulse delay below 500) whose end
    marker has been read as part of the echo: [fire] never clears the
    flag on its send path. *)
Theorem overridden_fire_stays_firing (s s' : obj) :
  _firing s = true ->
  fire true s = (Ret tt, s') ->
  _firing s' = true /\
  exists echo,
    (echo = "gK" \/ echo = "g") /\
    wire s' = wire s ++ [EvWrite _cmd_fire_series;
                         EvRead (String.length echo) echo].
Proof.
  intros Hf E.
  unfold fire in E. unfold bind at 1, attr at 1 in E.
  rewrite Hf in E. cbn [andb negb] in E.
  unfold bind at 1, ret at 1 in E. unfold bind at 1 in E.
  destruct (check_ready s) as [[[] | e1] s0] eqn:E0;
    apply check_ready_same in E0; subst s0; [| discriminate E].
  unfold bind at 1, attr at 1 in E. unfold bind at 1, attr at 1 in E.
  destruct (_current_pn s) as [n |]; [| discriminate E].
  destruct (_current_pd s) as [d |]; [| discriminate E].
  unfold bind at 1 in E.
  destruct (Qltb (fmul (py_float n) d) 500).
  - destruct (send_command_readout_cases (Str _cmd_fire_series)
                (Some (_cmd_fire_series +++ _buffer_end_sequence)) s)
      as [(p1 & p2 & _ & _ & E1) | (e & s1 & E1 & _)];
      rewrite E1 in E; [| discriminate E].
    injection E as <-. split; [exact Hf |].
    exists "gK". split; [now left | reflexivity].
  - unfold bind at 1 in E.
    destruct (send_command_readout_cases (Str _cmd_fire_series)
                (Some _cmd_fire_series) s)
      as [(p1 & p2 & _ & _ & E1) | (e & s1 & E1 & _)];
      rewrite E1 in E; [| discriminate E].
    injection E as <-. split; [reflexivity |].
    exists "g". split; [now right | reflexivity].
Qed.

(** ** The other calls that start a train *)

(** X13: [trigger_single] asks for no setting.  Idle, it writes "F",
    reads nothing back and sets the firing flag, leaving the force flag
    and the caches as they were.  Firing, it first reads the buffer once:
    when the read returns without the end marker it raises "already in
    firing mode" with nothing written; with it, it goes on as from
    idle. *)
Theorem trigger_single_arms_without_settings (s : obj) :
  (_firing s = false ->
   forall p, write _cmd_fire_ext_trig (_serial s) = Some p ->
     trigger_single s =
       (Ret tt,
        with_firing true (with_serial p [EvWrite _cmd_fire_ext_trig] s))) /\
  (_firing s = true ->
   forall buf p, read 100 (_serial s) = Some (buf, p) ->
     (~ contains _buffer_end_sequence buf ->
      trigger_single s =
        (Raise (Tellie AlreadyFiring), with_serial p [EvRead 100 buf] s)) /\
     (contains _buffer_end_sequence buf ->
      forall p', write _cmd_fire_ext_trig p = Some p' ->
        exists s',
          trigger_single s = (Ret tt, s') /\ _firing s' = true /\
          wire s' =
            wire s ++ [EvRead 100 buf; EvWrite _cmd_fire_ext_trig] /\
          _force_setting s' = _force_setting s /\
          caches s' = caches s)).
Proof.
  split.
  - intros Hf p Hw. unfold trigger_single. unfold bind at 1, attr at 1.
    rewrite Hf. unfold bind at 1, ret at 1. unfold bind at 1.
    rewrite (send_command_no_readout (Str _cmd_fire_ext_trig) None s p)
      by (apply write_all_one; exact Hw).
    reflexivity.
  - intros Hf buf p Hr.
    assert (E : trigger_single s =
                bind (if str_in _buffer_end_sequence buf
                      then assign (with_firing false)
                      else raise (Tellie AlreadyFiring))
                  (fun _ =>
                     bind (_send_command (Str _cmd_fire_ext_trig) false None)
                       (fun _ => assign (with_firing true)))
                  (with_serial p [EvRead 100 buf] s)).
    { unfold trigger_single. unfold bind at 1, attr at 1.
      rewrite Hf. unfold read_buffer.
      rewrite bind_assoc. unfold bind at 1.
      now rewrite (serial_read_eq 100 s buf p Hr). }
    rewrite E. split; intros Hk.
    + apply str_in_false in Hk. now rewrite Hk.
    + intros p' Hw. apply str_in_spec in Hk. rewrite Hk.
      unfold bind at 1, assign at 1. unfold bind at 1.
      rewrite (send_command_no_readout (Str _cmd_fire_ext_trig) None _ p')
        by (apply write_all_one; exact Hw).
      eexists. split; [reflexivity |].
      repeat split. simpl. now rewrite <- app_assoc.
Qed.

(** X14: [fire_continuous] asks for no setting either.  Idle, or firing
    with the end marker in the one buffer read, it writes "a" with no echo
    read and returns with the firing flag true and the force flag
    false. *)
Theorem fire_continuous_starts_without_settings (s : obj) :
  (_firing s = false ->
   forall p, write _cmd_fire_continuous (_serial s) = Some p ->
     fire_continuous s =
       (Ret tt,
        with_force_setting false
          (with_firing true
             (with_serial p [EvWrite _cmd_fire_continuous] s)))) /\
  (_firing s = true ->
   forall buf p p',
     read 100 (_serial s) = Some (buf, p) ->
     contains _buffer_end_sequence buf ->
     write _cmd_fire_continuous p = Some p' ->
     exists s',
       fire_continuous s = (Ret tt, s') /\ _firing s' = true /\
       _force_setting s' = false /\
       wire s' = wire s ++ [EvRead 100 buf; EvWrite _cmd_fire_continuous] /\
       caches s' = caches s).
Proof.
  split.
  - intros Hf p Hw. unfold fire_continuous. unfold bind at 1, attr at 1.
    rewrite Hf. unfold bind at 1, ret at 1. unfold bind at 1.
    rewrite (send_command_no_readout (Str _cmd_fire_continuous) None s p)
      by (apply write_all_one; exact Hw).
    reflexivity.
  - intros Hf buf p p' Hr Hk Hw.
    unfold fire_continuous. unfold bind at 1, attr at 1.
    rewrite Hf. unfold bind at 1. unfold read_buffer. unfold bind at 1.
    rewrite (serial_read_eq 100 s buf p Hr).
    apply str_in_spec in Hk. rewrite Hk.
    unfold assign at 1. unfold bind at 1.
    rewrite (send_command_no_readout (Str _cmd_fire_continuous) None _ p')
      by (apply write_all_one; exact Hw).
    eexists. split; [reflexivity |].
    repeat split. simpl. now rewrite <- app_assoc.
Qed.

(** ** The external trigger *)

(** X15: [enable_external_trig] without the override raises "Cannot set
    ext. trig" on a firing session and touches nothing.  Idle, or with the
    override, it writes "A" and waits for the one-byte echo "A".
    [disable_external_trigger] makes no test of the firing flag: it writes
    "B" and waits for the echo "B" in any state. *)
Theorem external_trigger_switches (s : obj) :
  (_firing s = true ->
   enable_external_trig false s = (Raise (Tellie ExtTrigWhileFiring), s)) /\
  (forall while_fire p1 p2,
      _firing s = false \/ while_fire = true ->
      write "A" (_serial s) = Some p1 ->
      read 1 p1 = Some ("A", p2) ->
      enable_external_trig while_fire s =
        (Ret tt, with_serial p2 [EvWrite "A"; EvRead 1 "A"] s)) /\
  (forall p1 p2,
      write "B" (_serial s) = Some p1 ->
      read 1 p1 = Some ("B", p2) ->
      disable_external_trigger s =
        (Ret tt, with_serial p2 [EvWrite "B"; EvRead 1 "B"] s)).
Proof.
  split; [| split].
  - intros Hf. unfold enable_external_trig, bind, attr. now rewrite Hf.
  - intros wf p1 p2 Hwf Hw Hr.
    unfold enable_external_trig. unfold bind at 1, attr at 1.
    replace (_firing s && negb wf) with false
      by (destruct Hwf as [-> | ->]; [reflexivity | now rewrite andb_false_r]).
    apply (send_command_echo_ok (Str _cmd_enable_ext_trig) None s p1 p2);
      [apply write_all_one; exact Hw | exact Hr].
  - intros p1 p2 Hw Hr.
    apply (send_command_echo_ok (Str "B") None s p1 p2);
      [apply write_all_one; exact Hw | exact Hr].
Qed.

(** ** A setter that sends *)

(** The echo an encoder of the module names is never empty, so it is the
    echo [_send_command] waits for. *)
Lemma core_echo_is_expected (k : setting) (units : list string)
    (echo : string) :
  is_core k = true ->
  encode k = Ret (units, echo) ->
  echo_for units (Some echo) = echo.
Proof.
  intros Hk E.
  destruct k as [par | par | par | par | par]; try discriminate Hk;
    cbn [encode] in E.
  - unfold command_pulse_height in E.
    destruct ((par >? _max_pulse_height) || (par <? 0)); [discriminate E |].
    destruct (chr (Z.shiftr par 8)); [| discriminate E].
    destruct (chr (Z.land par 255)); [| discriminate E].
    simpl in E. now injection E as <- <-.
  - unfold command_pulse_number in E.
    destruct ((par >? _max_pulse_number) || (par <? 0)); [discriminate E |].
    destruct (pulse_number par) as [[[adjusted actual] hi] lo].
    destruct adjusted; [discriminate E |].
    destruct (chr hi); [| discriminate E].
    destruct (chr lo); [| discriminate E].
    simpl in E. now injection E as <- <-.
  - unfold command_pulse_delay in E.
    destruct (Qgtb par _max_pulse_delay || Qltb par 0); [discriminate E |].
    cbv zeta in E.
    destruct (chr (py_int par)); [| discriminate E].
    destruct (chr (py_int _)); [| discriminate E].
    simpl in E. now injection E as <- <-.
  - unfold command_trigger_delay in E.
    destruct ((par >? _max_trigger_delay) || (par <? 0)); [discriminate E |].
    destruct (chr (par / 5)); [| discriminate E].
    simpl in E. now injection E as <- <-.
Qed.

Lemma set_core_sends (k : setting) (s : obj) (cb : list string * string) :
  is_core k = true ->
  _firing s = false ->
  cached k s && negb (_force_setting s) = false ->
  encode k = Ret cb ->
  set_setting hook k s =
    bind _check_clear_buffer
      (fun _ =>
         bind (_send_command (List (fst cb)) true (Some (snd cb)))
           (fun _ => assign (store k))) s.
Proof.
  intros Hk Hf Hskip Hcb.
  rewrite (set_core_eq hook k s Hk), Hskip.
  unfold bind at 1, lift. rewrite Hcb.
  unfold _send_setting_command. rewrite bind_assoc.
  unfold bind at 1, attr at 1. rewrite Hf.
  now rewrite bind_assoc.
Qed.

(** A setter of the module on its sending path, with a port that
    answers. *)
Lemma set_core_sends_and_caches (k : setting) (s : obj)
    (units : list string) (echo : string) (p0 p1 p2 : port) :
  is_core k = true ->
  _firing s = false ->
  cached k s && negb (_force_setting s) = false ->
  encode k = Ret (units, echo) ->
  read 100 (_serial s) = Some ("", p0) ->
  write_all units p0 = Some p1 ->
  read (String.length echo) p1 = Some (echo, p2) ->
  set_setting hook k s =
    (Ret tt,
     store k
       (with_serial p2
          (EvRead 100 "" :: map EvWrite units
           ++ [EvRead (String.length echo) echo]) s)).
Proof.
  intros Hk Hf Hskip Hcb Hclear Hw Hecho.
  rewrite (set_core_sends k s _ Hk Hf Hskip Hcb). cbn [fst snd].
  unfold bind at 1. unfold _check_clear_buffer. unfold bind at 1.
  rewrite (serial_read_eq 100 s "" p0 Hclear). cbn [String.eqb negb].
  unfold ret at 1. unfold bind at 1.
  pose proof (send_command_echo_ok (List units) (Some echo)
                (with_serial p0 [EvRead 100 ""] s) p1 p2) as E.
  cbn [as_list] in E.
  rewrite (core_echo_is_expected k units echo Hk Hcb) in E. cbv zeta in E.
  rewrite E; [| exact Hw | exact Hecho].
  unfold assign. now rewrite with_serial_twice.
Qed.

(** X16: the sending path of a setter of the module.  Idle, with a value
    that is not the cached one (or with the force flag set) and that the
    encoder accepts: when the buffer is clear, the port accepts the units
    and the echo read is the encoder's echo, the setter returns having
    done, in this order, one read of up to 100 bytes that returned
    nothing, one write per unit of the command, and one read of the echo;
    only then is the value cached. *)
Theorem setter_checks_sends_verifies_then_caches (k : setting) (s : obj)
    (units : list string) (echo : string) (p0 p1 p2 : port) :
  is_core k = true ->
  _firing s = false ->
  cached k s && negb (_force_setting s) = false ->
  encode k = Ret (units, echo) ->
  read 100 (_serial s) = Some ("", p0) ->
  write_all units p0 = Some p1 ->
  read (String.length echo) p1 = Some (echo, p2) ->
  set_setting hook k s =
    (Ret tt,
     store k
       (with_serial p2
          (EvRead 100 "" :: map EvWrite units
           ++ [EvRead (String.length echo) echo]) s)).
Proof. apply set_core_sends_and_caches. Qed.

(** X17: a setter of the module that has to send, on an idle session
    whose buffer holds stale bytes, raises "Buffer not clear" with those
    bytes.  It has read them (they are gone from the buffer) and written
    nothing; the object is otherwise as before. *)
Theorem setter_refuses_a_stale_buffer (k : setting) (s : obj)
    (cb : list string * string) (got : string) (p : port) :
  is_core k = true ->
  _firing s = false ->
  cached k s && negb (_force_setting s) = false ->
  encode k = Ret cb ->
  read 100 (_serial s) = Some (got, p) ->
  got <> "" ->
  set_setting hook k s =
    (Raise (Tellie (BufferNotClear got)), with_serial p [EvRead 100 got] s).
Proof.
  intros Hk Hf Hskip Hcb Hr Hne.
  rewrite (set_core_sends k s _ Hk Hf Hskip Hcb).
  unfold bind at 1. unfold _check_clear_buffer. unfold bind at 1.
  rewrite (serial_read_eq 100 s got p Hr).
  apply String.eqb_neq in Hne. now rewrite Hne.
Qed.

(** ** A refused write *)

Lemma for_each_write_stops (units : list string) :
  forall s : obj,
    write_all units (_serial s) = None ->
    exists sent rest p,
      units = sent ++ rest /\ rest <> [] /\
      write_all sent (_serial s) = Some p /\
      for_each units serial_write s =
        (Raise SerialException, with_serial p (map EvWrite sent) s).
Proof.
  induction units as [| c rest IH]; intros s Hw; simpl in Hw.
  - discriminate Hw.
  - destruct (write c (_serial s)) as [p' |] eqn:Hc.
    + destruct (IH (with_serial p' [EvWrite c] s) Hw)
        as (sent & rest' & p & -> & Hne & Hsent & E).
      exists (c :: sent), rest', p.
      split; [reflexivity |]. split; [exact Hne |].
      split; [simpl; now rewrite Hc |].
      cbn [for_each]. unfold bind. rewrite (serial_write_ok c s p' Hc).
      rewrite E. now rewrite with_serial_twice.
    + exists [], (c :: rest), (_serial s).
      split; [reflexivity |]. split; [discriminate |].
      split; [reflexivity |].
      cbn [for_each]. unfold bind. rewrite (serial_write_refused c s Hc).
      now rewrite with_serial_nil.
Qed.

(** X18: a command of several units is not sent as a whole.  When the
    port refuses one of its writes, [_send_command] raises "Lost
    connection" having written the units before the refused one, which
    stay written; the refused unit and those after it are not written and
    nothing is read. *)
Theorem refused_write_leaves_the_command_half_sent (cmd : command)
    (readout : bool) (bc : option string) (s : obj) :
  write_all (as_list cmd) (_serial s) = None ->
  exists sent rest p,
    as_list cmd = sent ++ rest /\ rest <> [] /\
    write_all sent (_serial s) = Some p /\
    _send_command cmd readout bc s =
      (Raise (Tellie ConnectionLost), with_serial p (map EvWrite sent) s).
Proof.
  intros Hw.
  destruct (for_each_write_stops _ s Hw)
    as (sent & rest & p & E & Hne & Hsent & F).
  exists sent, rest, p. repeat split; try assumption.
  unfold _send_command, bind, try_except. now rewrite F.
Qed.

(** X19: the recovery after a wrong echo is not guarded.  When the port
    refuses the write of "X", the library's exception leaves
    [_send_command] as it is: "Unexpected buffer output" is not raised,
    and "C" is not written. *)
Theorem recovery_gives_up_on_a_refused_write (cmd : command)
    (bc : option string) (s : obj) (p1 p2 p3 : port) (got rem : string) :
  let units := as_list cmd in
  let expected := echo_for units bc in
  write_all units (_serial s) = Some p1 ->
  read (String.length expected) p1 = Some (got, p2) ->
  got <> expected ->
  read 100 p2 = Some (rem, p3) ->
  write "X" p3 = None ->
  _send_command cmd true bc s =
    (Raise SerialException,
     with_serial p3
       (map EvWrite units
        ++ [EvRead (String.length expected) got; EvSleep (1 # 10);
            EvRead 100 rem]) s).
Proof.
  intros units expected Hw Hr Hne Hrem HX.
  apply String.eqb_neq in Hne.
  unfold _send_command, bind, try_except.
  fold units. rewrite (for_each_write_ok units s p1 Hw).
  fold expected.
  rewrite (serial_read_eq _ (with_serial p1 _ s) got p2) by exact Hr.
  rewrite Hne. cbn [negb].
  unfold sleep, assign, raise. cbv beta iota.
  rewrite (serial_read_eq 100 _ rem p3) by exact Hrem.
  rewrite (serial_write_refused "X") by exact HX.
  unfold with_wire, with_serial. simpl. f_equal. f_equal.
  now rewrite <- !app_assoc.
Qed.

(** X20: a setting command sent with [while_fire] on a firing session is
    only written: the buffer is not tested, no echo is read and the
    expected echo is not used. *)
Theorem setting_command_while_firing_only_writes (cmd : command)
    (bc : option string) (s : obj) (p : port) :
  _firing s = true ->
  write_all (as_list cmd) (_serial s) = Some p ->
  _send_setting_command cmd bc true s =
    (Ret tt, with_serial p (map EvWrite (as_list cmd)) s).
Proof.
  intros Hf Hw. unfold _send_setting_command. unfold bind at 1, attr at 1.
  rewrite Hf. cbn [negb].
  now apply send_command_no_readout.
Qed.

(** ** Forgetting the settings *)

(** With one channel selected and the fibre delay cache not bound to a
    list, the subscript of the cache raises. *)
Lemma set_fibre_delay_unbound_cache (par : Q) (s : obj) :
  length (_channel s) = 1%nat ->
  _current_fd s = None ->
  set_fibre_delay hook par s = (Raise TypeError, s).
Proof.
  intros Hlen Hfd. unfold set_fibre_delay. unfold bind at 1, attr at 1.
  rewrite Hlen. cbn [Nat.eqb negb].
  unfold bind at 1, attr at 1. unfold bind at 1, lift at 1.
  destruct (_channel s) as [| ch [| ? ?]]; try discriminate Hlen.
  cbn. unfold bind at 1. now rewrite Hfd.
Qed.

(** X21: [clear_settings] empties the five caches and does nothing else:
    the port, the wire record, the two flags and the channel selection are
    as before.  After it no value counts as cached.  So each of the four
    setters of the module, called on the idle session with a value its
    encoder accepts, sends its command again whatever the value and the
    force flag (buffer test, one write per unit, echo read, on a port that
    answers) and caches the value; [set_fibre_delay] with one channel
    selected raises TypeError on the cache that is no list any more and
    sends nothing; [check_ready] names all three settings; and [fire]
    from the idle state raises "Undefined options" for the three of
    them. *)
Theorem clear_settings_forgets_every_setting (s : obj) :
  exists s',
    clear_settings s = (Ret tt, s') /\
    caches s' = (None, None, None, None, None) /\
    _serial s' = _serial s /\ wire s' = wire s /\
    _firing s' = _firing s /\ _force_setting s' = _force_setting s /\
    _channel s' = _channel s /\
    (forall k, cached k s' = false) /\
    (forall k units echo p0 p1 p2,
        is_core k = true ->
        _firing s = false ->
        encode k = Ret (units, echo) ->
        read 100 (_serial s) = Some ("", p0) ->
        write_all units p0 = Some p1 ->
        read (String.length echo) p1 = Some (echo, p2) ->
        set_setting hook k s' =
          (Ret tt,
           store k
             (with_serial p2
                (EvRead 100 "" :: map EvWrite units
                 ++ [EvRead (String.length echo) echo]) s'))) /\
    (forall par,
        length (_channel s) = 1%nat ->
        set_fibre_delay hook par s' = (Raise TypeError, s')) /\
    missing s' = ["Pulse height"; "Pulse number"; "Pulse delay"] /\
    (forall while_fire,
        _firing s = false ->
        bind clear_settings (fun _ => fire while_fire) s =
          (Raise (Tellie (IncompleteConfiguration
                            ["Pulse height"; "Pulse number"; "Pulse delay"])),
           s')).
Proof.
  set (s' := with_current_td None (with_current_pd None (with_current_pn None
               (with_current_fd None (with_current_ph None s))))).
  assert (Hc : forall k, cached k s' = false).
  { intros k. destruct k; try reflexivity.
    cbn. now destruct (_channel s) as [| ? [| ? ?]]. }
  exists s'.
  split; [reflexivity |]. split; [reflexivity |].
  split; [reflexivity |]. split; [reflexivity |].
  split; [reflexivity |]. split; [reflexivity |].
  split; [reflexivity |]. split; [exact Hc |].
  split; [| split; [| split; [reflexivity |]]].
  - intros k units echo p0 p1 p2 Hk Hf Hcb Hclear Hw Hecho.
    apply (set_core_sends_and_caches k s' units echo p0 p1 p2);
      try assumption.
    now rewrite Hc.
  - intros par Hlen. now apply set_fibre_delay_unbound_cache.
  - intros wf Hf. unfold bind at 1.
    change (clear_settings s) with (Ret tt, s').
    cbv beta iota.
    unfold fire. unfold bind at 1, attr at 1.
    change (_firing s') with (_firing s).
    rewrite Hf. reflexivity.
Qed.

(** ** The fibre delay *)

(** X22: [set_fibre_delay] sends nothing unless exactly one channel is
    selected and the fibre delay cache can be subscripted.  With no
    channel or several it raises "Cannot set parameter with channels set
    as ..."; with one channel and the cache still [None], as [__init__] and
    [clear_settings] leave it, the subscript raises TypeError.  Either way
    the object is untouched and the channel command is not called. *)
Theorem set_fibre_delay_needs_a_channel_and_a_cache (par : Q) (s : obj) :
  (length (_channel s) <> 1%nat ->
   set_fibre_delay hook par s = (Raise (Tellie (ChannelsSet (_channel s))), s))
  /\
  (length (_channel s) = 1%nat ->
   _current_fd s = None ->
   set_fibre_delay hook par s = (Raise TypeError, s)).
Proof.
  split.
  - intros Hlen. unfold set_fibre_delay. unfold bind at 1, attr at 1.
    apply Nat.eqb_neq in Hlen. now rewrite Hlen.
  - intros Hlen Hfd. unfold set_fibre_delay. unfold bind at 1, attr at 1.
    rewrite Hlen. cbn [Nat.eqb negb].
    unfold bind at 1, attr at 1. unfold bind at 1, lift at 1.
    destruct (_channel s) as [| ch [| ? ?]]; try discriminate Hlen.
    cbn. unfold bind at 1. now rewrite Hfd.
Qed.

End Methods.

(** ** The further properties on the replay port *)

Lemma lookup_encoders_follow_the_tables_at_10 :
  command_pulse_number 10 =
    Ret ([_cmd_pn_hi +++ byte 1; _cmd_pn_lo +++ byte 10], "HG").
Proof.
  apply (proj1 lookup_encoders_follow_the_tables).
  split; [lia |]. exists 10, 1, 10. repeat split; lia.
Defined.

Lemma setter_touches_only_its_own_cache_on_echoing_port :
  let rs := set_setting Replay.channel_command (PulseHeight 101)
              Examples.echoing_height in
  fst rs = Ret tt /\
  _firing (snd rs) = _firing Examples.echoing_height /\
  _force_setting (snd rs) = _force_setting Examples.echoing_height /\
  _channel (snd rs) = _channel Examples.echoing_height /\
  caches (store (PulseHeight 101) (snd rs)) =
    caches (store (PulseHeight 101) Examples.echoing_height).
Proof.
  split; [reflexivity |].
  apply (setter_touches_only_its_own_cache Replay.channel_command
           (PulseHeight 101) Examples.echoing_height
           (snd (set_setting Replay.channel_command (PulseHeight 101)
                   Examples.echoing_height)) (Ret tt));
    reflexivity.
Defined.

Lemma caches_change_only_through_setters_at_stop :
  let rs := run Replay.channel_command OpStop Examples.busy in
  fst rs = Ret tt /\
  caches (snd rs) = caches Examples.busy /\
  _channel (snd rs) = _channel Examples.busy.
Proof.
  split; [reflexivity |].
  apply (caches_change_only_through_setters Replay.channel_command OpStop
           Examples.busy
           (snd (run Replay.channel_command OpStop Examples.busy)) (Ret tt));
    reflexivity.
Defined.

(** X8 on an idle session with no channel selected: [fire_continuous]
    returns with the flag set; [fire_single] raises with the flag set, its
    pin never polled. *)
Lemma firing_flag_is_raised_by_fire_continuous :
  let rs := run Replay.channel_command OpFireContinuous MoreExamples.idle in
  let single :=
    fire_single bool (fun b => b) (fun _ => ret true) 1 MoreExamples.idle in
  _firing MoreExamples.idle = false /\ _firing (snd rs) = true /\
  starts_train OpFireContinuous = true /\ fst rs = Ret tt /\
  fst single = Raise IndexError /\ _firing (snd single) = true /\
  wire (snd single) = [EvWrite "m"].
Proof.
  destruct (firing_flag_is_raised_only_by_a_firing_call
              Replay.channel_command bool (fun b => b) (fun _ => ret true)
              MoreExamples.idle eq_refl) as (Hop & _ & Hsingle).
  split; [reflexivity |]. split; [reflexivity |].
  destruct (Hop OpFireContinuous
              (fst (run Replay.channel_command OpFireContinuous
                      MoreExamples.idle))
              (snd (run Replay.channel_command OpFireContinuous
                      MoreExamples.idle)))
    as [Hstart Hret];
    [intros par; discriminate | reflexivity | reflexivity |].
  split; [exact Hstart |]. split; [exact Hret |].
  rewrite (Hsingle 0%nat (Replay.mkPort [] 7) eq_refl eq_refl).
  repeat split.
Defined.

Lemma firing_needs_the_three_settings_on_a_fresh_session :
  fire false MoreExamples.fresh =
    (Raise (Tellie (IncompleteConfiguration
                      ["Pulse height"; "Pulse number"; "Pulse delay"])),
     MoreExamples.fresh).
Proof.
  destruct (firing_needs_the_three_settings MoreExamples.fresh)
    as (_ & _ & Hrefused).
  destruct (Hrefused ltac:(discriminate)) as (_ & _ & Hfire).
  apply (Hfire false). now left.
Defined.

Lemma check_firing_sees_the_end_marker :
  exists s',
    check_firing MoreExamples.finished = (Ret false, s') /\
    _firing s' = false /\ wire s' = [EvRead 100 "xK"].
Proof.
  destruct (check_firing_polls_the_buffer_once MoreExamples.finished)
    as [_ Hfiring].
  destruct (Hfiring eq_refl "xK" (Replay.mkPort [] 8) eq_refl)
    as (b & s' & E & Hb & Hk & Hw & _).
  assert (b = false) as ->.
  { apply Hk. now exists "x", "". }
  exists s'. repeat split; assumption.
Defined.

Lemma fire_again_is_refused_when_busy :
  fire false Examples.busy =
    (Raise (Tellie AlreadyFiring),
     with_serial (Replay.mkPort [] 8) [EvRead 100 ""] Examples.busy).
Proof.
  destruct (fire_again_waits_for_the_end_marker Examples.busy ""
              (Replay.mkPort [] 8)) as [Hrefused _];
    [reflexivity | reflexivity |].
  apply Hrefused.
  intros (a & c & E). destruct a; discriminate E.
Defined.

Lemma overridden_fire_stays_firing_on_a_short_train :
  let s := Replay.configured (Replay.mkPort ["gK"] 8) true in
  fst (fire true s) = Ret tt /\ _firing (snd (fire true s)) = true.
Proof.
  split; [reflexivity |].
  apply (overridden_fire_stays_firing
           (Replay.configured (Replay.mkPort ["gK"] 8) true)
           (snd (fire true
                   (Replay.configured (Replay.mkPort ["gK"] 8) true))));
    reflexivity.
Defined.

Lemma trigger_single_arms_a_fresh_session :
  trigger_single MoreExamples.fresh =
    (Ret tt,
     with_firing true
       (with_serial (Replay.mkPort [] 7) [EvWrite "F"] MoreExamples.fresh)).
Proof.
  apply (proj1 (trigger_single_arms_without_settings MoreExamples.fresh));
    reflexivity.
Defined.

Lemma fire_continuous_starts_a_fresh_session :
  fire_continuous MoreExamples.fresh =
    (Ret tt,
     with_force_setting false
       (with_firing true
          (with_serial (Replay.mkPort [] 7) [EvWrite "a"] MoreExamples.fresh))).
Proof.
  apply (proj1 (fire_continuous_starts_without_settings MoreExamples.fresh));
    reflexivity.
Defined.

Lemma external_trigger_is_refused_when_busy :
  enable_external_trig false Examples.busy =
    (Raise (Tellie ExtTrigWhileFiring), Examples.busy).
Proof.
  apply (proj1 (external_trigger_switches Examples.busy)). reflexivity.
Defined.

Lemma setter_sends_height_12353 :
  exists s',
    set_setting Replay.channel_command (PulseHeight 12353)
      Examples.echoing_height = (Ret tt, s') /\
    wire s' = [EvRead 100 ""; EvWrite "L0"; EvWrite "MA"; EvWrite "P";
               EvRead 3 "LMP"] /\
    _current_ph s' = Some 12353.
Proof.
  eexists. split; [| split].
  - apply (setter_checks_sends_verifies_then_caches Replay.channel_command
             (PulseHeight 12353) Examples.echoing_height
             ["L0"; "MA"; "P"] "LMP"
             (Replay.mkPort ["LMP"] 8) (Replay.mkPort ["LMP"] 5)
             (Replay.mkPort [] 5)); reflexivity.
  - reflexivity.
  - reflexivity.
Defined.

Lemma setter_refuses_the_stale_marker :
  set_setting Replay.channel_command (PulseHeight 101) Examples.stale =
    (Raise (Tellie (BufferNotClear "K")),
     with_serial (Replay.mkPort [] 8) [EvRead 100 "K"] Examples.stale).
Proof.
  apply (setter_refuses_a_stale_buffer Replay.channel_command
           (PulseHeight 101) Examples.stale
           (["L" +++ byte 0; "M" +++ byte 101; "P"], "LMP"));
    try reflexivity. discriminate.
Defined.

Lemma height_command_is_half_sent_when_the_link_drops :
  exists sent rest p,
    ["L0"; "MA"; "P"] = sent ++ rest /\ rest <> [] /\
    write_all sent (_serial MoreExamples.dropping) = Some p /\
    _send_command (List ["L0"; "MA"; "P"]) true (Some "LMP")
      MoreExamples.dropping =
      (Raise (Tellie ConnectionLost),
       with_serial p (map EvWrite sent) MoreExamples.dropping).
Proof.
  apply (refused_write_leaves_the_command_half_sent
           (List ["L0"; "MA"; "P"]) true (Some "LMP") MoreExamples.dropping).
  reflexivity.
Defined.

Lemma recovery_gives_up_when_the_link_is_down :
  _send_command (Str "g") true (Some "gK") MoreExamples.garbled_then_down =
    (Raise SerialException,
     with_serial (Replay.mkPort [] 0)
       [EvWrite "g"; EvRead 2 "zz"; EvSleep (1 # 10); EvRead 100 "left"]
       MoreExamples.garbled_then_down).
Proof.
  apply (recovery_gives_up_on_a_refused_write (Str "g") (Some "gK")
           MoreExamples.garbled_then_down
           (Replay.mkPort ["zz"; "left"] 0) (Replay.mkPort ["left"] 0)
           (Replay.mkPort [] 0) "zz" "left");
    try reflexivity. discriminate.
Defined.

Lemma setting_command_while_firing_writes_three_units :
  _send_setting_command (List ["L0"; "MA"; "P"]) (Some "LMP") true
    Examples.busy =
    (Ret tt,
     with_serial (Replay.mkPort [""] 5)
       [EvWrite "L0"; EvWrite "MA"; EvWrite "P"] Examples.busy).
Proof.
  apply (setting_command_while_firing_only_writes (List ["L0"; "MA"; "P"])
           (Some "LMP") Examples.busy (Replay.mkPort [""] 5));
    reflexivity.
Defined.

(** X21 on the pulse height: 100 is the cached value, so setting it does
    nothing; after [clear_settings] the same call sends the command. *)
Lemma clear_settings_makes_a_setter_send_again :
  let s := Examples.echoing_height in
  set_setting Replay.channel_command (PulseHeight 100) s = (Ret tt, s) /\
  exists s2,
    set_setting Replay.channel_command (PulseHeight 100)
      (snd (clear_settings s)) = (Ret tt, s2) /\
    wire s2 = [EvRead 100 ""; EvWrite ("L" +++ byte 0);
               EvWrite ("M" +++ byte 100); EvWrite "P"; EvRead 3 "LMP"] /\
    _current_ph s2 = Some 100.
Proof.
  split; [reflexivity |].
  destruct (clear_settings_forgets_every_setting Replay.channel_command
              Examples.echoing_height)
    as (s' & E & _ & _ & _ & _ & _ & _ & _ & Hsend & _).
  vm_compute in E. injection E as <-.
  eexists. split; [| split].
  - apply (Hsend (PulseHeight 100)
             ["L" +++ byte 0; "M" +++ byte 100; "P"] "LMP"
             (Replay.mkPort ["LMP"] 8) (Replay.mkPort ["LMP"] 5)
             (Replay.mkPort [] 5)); reflexivity.
  - reflexivity.
  - reflexivity.
Defined.

Lemma set_fibre_delay_on_an_unbound_cache :
  set_fibre_delay Replay.channel_command 1 MoreExamples.one_channel =
    (Raise TypeError, MoreExamples.one_channel) /\
  set_fibre_delay Replay.channel_command 1 MoreExamples.fresh =
    (Raise (Tellie (ChannelsSet [])), MoreExamples.fresh).
Proof.
  split.
  - apply (proj2 (set_fibre_delay_needs_a_channel_and_a_cache
                    Replay.channel_command 1 MoreExamples.one_channel));
      reflexivity.
  - apply (proj1 (set_fibre_delay_needs_a_channel_and_a_cache
                    Replay.channel_command 1 MoreExamples.fresh)).
    discriminate.
Defined.
